(** * The pprof web handler: profile cache, capture controller, flame tree

    A shallow embedding of [internal/driver/webhandler.go]: the query
    helpers, the name-keyed profile cache, [createProfile] (sequentially and
    as interleaved goroutines), [tryGetProfile], and the flame tree built by
    the [flamegraph] handler.  Definitions come first, theorems follow. *)

From Stdlib Require Import ZArith Lia Ascii DecimalString.
From stdpp Require Import base list strings gmap sorting.

Local Open Scope string_scope.
Local Open Scope list_scope.
Local Open Scope Z_scope.

(* ===================================================================== *)
(** * Part I: definitions                                                  *)
(* ===================================================================== *)

(** ** Go's [time] package, as far as the handler uses it *)

Module time.

(** [time.Duration] is an [int64] count of nanoseconds. *)
Definition Duration := Z.
Definition Second : Duration := 1000000000.

(** [time.Time]: the wall clock reading, in nanoseconds since the Unix
    epoch, already shifted into the location the process prints in. *)
Definition Time := Z.

Definition digits (n : Z) : string :=
  NilZero.string_of_uint (N.to_uint (Z.to_N n)).

(** Zero padding to two and four digits, for fields that are in range. *)
Definition pad2 (n : Z) : string :=
  if n <? 10 then "0" +:+ digits n else digits n.

Definition pad4 (n : Z) : string :=
  if n <? 10 then "000" +:+ digits n
  else if n <? 100 then "00" +:+ digits n
  else if n <? 1000 then "0" +:+ digits n
  else digits n.

(** Proleptic Gregorian date of a day number counted from 1970-01-01. *)
Definition civil (days : Z) : Z * Z * Z :=
  let z := days + 719468 in
  let era := z / 146097 in
  let doe := z - era * 146097 in
  let yoe := (doe - doe / 1460 + doe / 36524 - doe / 146096) / 365 in
  let doy := doe - (365 * yoe + yoe / 4 - yoe / 100) in
  let mp := (5 * doy + 2) / 153 in
  let d := doy - (153 * mp + 2) / 5 + 1 in
  let m := if mp <? 10 then mp + 3 else mp - 9 in
  let y := yoe + era * 400 + (if m <=? 2 then 1 else 0) in
  (y, m, d).

(** [t.Format("2006-01-02T15:04:05")] for years 0..9999: the reading is
    cut to whole seconds and printed as date, [T], time of day. *)
Definition Format (t : Time) : string :=
  let secs := t / Second in
  let '(y, m, d) := civil (secs / 86400) in
  let sod := secs mod 86400 in
  pad4 y +:+ "-" +:+ pad2 m +:+ "-" +:+ pad2 d +:+ "T" +:+
  pad2 (sod / 3600) +:+ ":" +:+ pad2 (sod mod 3600 / 60) +:+ ":" +:+
  pad2 (sod mod 60).

(** Round to the nearest integer, ties to the even one. *)
Definition round_half_even (num den : Z) : Z :=
  let q := num / den in
  let r := num mod den in
  if 2 * r <? den then q
  else if den <? 2 * r then q + 1
  else if Z.even q then q else q + 1.

(** The [float64] nearest to [n / d], ties to the even significand, for
    [0 <= n] and [0 < d]: the pair [(m, e)] stands for [m * 2 ^ e], with a
    significand [m] of 53 bits.  The quotients the handler forms are far from
    the subnormal and the overflow range. *)
Definition float64 (n d : Z) : Z * Z :=
  if n =? 0 then (0, 0)
  else
    let e0 := Z.log2 n - Z.log2 d - 53 in
    let e := if 2 ^ 53 * (d * 2 ^ Z.max 0 e0) <=? n * 2 ^ Z.max 0 (- e0)
             then e0 + 1 else e0 in
    (round_half_even (n * 2 ^ Z.max 0 (- e)) (d * 2 ^ Z.max 0 e), e).

(** [Duration.Seconds] of a duration of [a >= 0] nanoseconds:
    [float64(sec) + float64(nsec)/1e9] with [sec := d / Second] and
    [nsec := d % Second].  The two conversions are exact; the division and
    the addition each round to the nearest [float64].  Go's [/] and [%] on a
    negative duration give the negated parts, and the float operations are
    symmetric, so the seconds of [- a] are the negated seconds of [a]. *)
Definition Seconds (a : Z) : Z * Z :=
  let sec := a / Second in
  let nsec := a mod Second in
  let '(mq, eq) := float64 nsec Second in
  float64 (sec * 2 ^ Z.max 0 (- eq) + mq * 2 ^ Z.max 0 eq) (2 ^ Z.max 0 (- eq)).

(** [fmt.Sprintf("%.0f", d.Seconds())]: the [float64] of the seconds,
    rounded to the nearest integer, ties to even, and printed in decimal.  A
    negative duration keeps its sign, also when it rounds to zero. *)
Definition SecondsF0 (d : Duration) : string :=
  let '(m, e) := Seconds (Z.abs d) in
  (if d <? 0 then "-" else "") +:+
  digits (round_half_even (m * 2 ^ Z.max 0 e) (2 ^ Z.max 0 (- e))).

End time.

(** ** [net/url]: the query of a request *)

Module url.

(** [url.Values], flattened: the [key=value] pairs in the order they are
    written in the query string. *)
Definition Values := list (string * string).

(** [Values.Get]: the first value of the key, or the empty string. *)
Fixpoint Get (q : Values) (key : string) : string :=
  match q with
  | [] => ""
  | (k, v) :: q' => if String.eqb k key then v else Get q' key
  end.

End url.

(** ** Constants of the handler *)

Definition ProfileTypeCPU : string := "cpu".
Definition ProfileTypeHeap : string := "heap".
Definition defaultProfileType : string := ProfileTypeCPU.
Definition defaultSamplePeriod : time.Duration := 5 * time.Second.
Definition maxSamplePeriod : time.Duration := 60 * time.Second.

(** ** The handler's state *)

(** A decoded [*profile.Profile].  The handler never looks inside one; it
    is identified by its address. *)
Inductive Profile := ProfileAt (addr : nat).

Global Instance Profile_eq_dec : EqDecision Profile.
Proof. solve_decision. Defined.

(** The fields of [webHandler] that change while it serves: the cache, the
    in-progress flag, and whether [mtx] is held. *)
Record webHandler := mkHandler {
  profCache : gmap string Profile;
  inProfiling : bool;
  mtx : bool
}.

Definition set_profCache (c : gmap string Profile) (h : webHandler) : webHandler :=
  mkHandler c (inProfiling h) (mtx h).
Definition set_inProfiling (b : bool) (h : webHandler) : webHandler :=
  mkHandler (profCache h) b (mtx h).
Definition set_mtx (b : bool) (h : webHandler) : webHandler :=
  mkHandler (profCache h) (inProfiling h) b.

(** ** The runtime the capture talks to *)

(** Calls that leave the handler, in the order they are made. *)
Inductive Event :=
| EvNow
| EvStartCPUProfile
| EvSleep (d : time.Duration)
| EvStopCPUProfile
| EvGC
| EvWriteHeapProfile
| EvParse.

Global Instance Event_eq_dec : EqDecision Event.
Proof. solve_decision. Defined.

(** The world outside the handler: the clock, what the next call of each
    fallible primitive answers, and the calls made so far (latest last).
    Only [time.Sleep] moves the clock of the model. *)
Record World := mkWorld {
  clock : time.Time;
  startCPU : option string;        (* error of pprof.StartCPUProfile, if any *)
  writeHeap : option string;       (* error of pprof.WriteHeapProfile, if any *)
  parse : string + Profile;        (* answer of profile.Parse *)
  trace : list Event
}.

Definition emit (e : Event) (w : World) : World :=
  mkWorld (clock w) (startCPU w) (writeHeap w) (parse w) (trace w ++ [e]).

Definition time_Now (w : World) : time.Time * World := (clock w, emit EvNow w).

(** [time.Sleep d] returns at once for [d <= 0]. *)
Definition time_Sleep (d : time.Duration) (w : World) : World :=
  let w' := emit (EvSleep d) w in
  mkWorld (clock w' + Z.max 0 d) (startCPU w') (writeHeap w') (parse w') (trace w').

Definition pprof_StartCPUProfile (w : World) : option string * World :=
  (startCPU w, emit EvStartCPUProfile w).
Definition pprof_StopCPUProfile (w : World) : World := emit EvStopCPUProfile w.
Definition runtime_GC (w : World) : World := emit EvGC w.
Definition pprof_WriteHeapProfile (w : World) : option string * World :=
  (writeHeap w, emit EvWriteHeapProfile w).
Definition profile_Parse (w : World) : (string + Profile) * World :=
  (parse w, emit EvParse w).

(** ** Names and the cache *)

Definition profileName (profType : string) (period : time.Duration) (t : time.Time) : string :=
  let strTime := time.Format t in
  strTime +:+ "-" +:+ time.SecondsF0 period +:+ "Seconds-" +:+ profType.

(** The order [sort.Slice] is given: [names[i] > names[j]] puts the greater
    name first.  On the keys of a map, which are distinct, every sorting
    algorithm returns the same slice; the model uses a merge sort. *)
Definition name_ge (a b : string) : Prop := String.le b a.

Global Instance name_ge_dec : RelDecision name_ge.
Proof. intros a b. unfold name_ge. apply _. Defined.

Definition profileNames (h : webHandler) : list string :=
  let names := (map_to_list (profCache h)).*1 in
  merge_sort name_ge names.

Definition getProfile (h : webHandler) (name : string) : option Profile :=
  profCache h !! name.

Definition latestProfile (h : webHandler) : string * option Profile :=
  let names := profileNames h in
  match names with
  | [] => ("", None)
  | name0 :: _ =>
      match profCache h !! name0 with
      | Some p => (name0, Some p)
      | None => ("", None)
      end
  end.

(** ** Query parameters *)

Definition getProfileNameFromQuery (u : url.Values) : string := url.Get u "pn".

Definition getProfileTypeFromQuery (u : url.Values) : string :=
  let pt := url.Get u "pt" in
  if String.eqb pt "" then ProfileTypeCPU else pt.

(** [time.ParseDuration] belongs to Go's library; the handler is read for
    any parser, which answers an error text or a duration. *)
Definition getSamplePerioidFromQuery
    (ParseDuration : string -> string + time.Duration) (u : url.Values) : time.Duration :=
  let s := url.Get u "sd" in
  if String.eqb s "" then defaultSamplePeriod
  else match ParseDuration s with
       | inl _ => defaultSamplePeriod
       | inr d => if 60 * time.Second <? d then maxSamplePeriod else d
       end.

(** A parser for the examples below: it reads [<digits>s] and nothing else. *)
Fixpoint parseDigits (acc : Z) (s : string) : option Z :=
  match s with
  | String "s"%char "" => Some acc
  | String c s' =>
      match Ascii.is_nat c with
      | Some n => parseDigits (10 * acc + Z.of_nat n) s'
      | None => None
      end
  | "" => None
  end.

Definition parseSeconds (s : string) : string + time.Duration :=
  match s with
  | String "s"%char _ => inl "time: invalid duration"
  | _ => match parseDigits 0 s with
         | Some n => inr (n * time.Second)
         | None => inl "time: invalid duration"
         end
  end.

(** ** The capture controller *)

(** What [createProfile] returns: [(name, profile, err)]. *)
Definition Result : Type := string * option Profile * option string.

Definition failed (err : string) : Result := ("", None, Some err).

(** The [switch profType] of [createProfile]: the sampling itself.  It
    answers the error that makes the function return, if any. *)
Definition capture (profType : string) (samplePeriod : time.Duration) (w : World)
  : option string * World :=
  if String.eqb profType ProfileTypeCPU then
    match pprof_StartCPUProfile w with
    | (Some err, w1) => (Some err, w1)
    | (None, w1) =>
        let w2 := time_Sleep samplePeriod w1 in
        (None, pprof_StopCPUProfile w2)
    end
  else if String.eqb profType ProfileTypeHeap then
    let w1 := runtime_GC w in
    match pprof_WriteHeapProfile w1 with
    | (Some err, w2) => (Some err, w2)
    | (None, w2) => (None, w2)
    end
  else (Some "unknown profile type", w).

(** Lines 443 to 464: the name, the sampling and the decoding.  The answer
    is the name and either the error to return or the decoded profile. *)
Definition sample (profType : string) (samplePeriod : time.Duration) (w : World)
  : string * (string + Profile) * World :=
  let '(now, w0) := time_Now w in
  let profName := profileName profType samplePeriod now in
  match capture profType samplePeriod w0 with
  | (Some err, w1) => (profName, inl err, w1)
  | (None, w1) =>
      let '(r, w2) := profile_Parse w1 in
      (profName, r, w2)
  end.

(** [createProfile] run by one goroutine with nothing in between.  Each
    [Lock] is followed by its [Unlock] on every path, so the mutex is left
    as it was; the deferred function clears the flag at every return that
    follows its registration. *)
Definition createProfile (profType : string) (samplePeriod : time.Duration)
    (h : webHandler) (w : World) : Result * webHandler * World :=
  if inProfiling h then (failed "already in profiling", h, w)
  else
    let h1 := set_inProfiling true h in
    match sample profType samplePeriod w with
    | (_, inl err, w') => (failed err, set_inProfiling false h1, w')
    | (profName, inr p, w') =>
        let h2 := set_profCache (<[profName := p]> (profCache h1)) h1 in
        ((profName, Some p, None), set_inProfiling false h2, w')
    end.

Definition tryGetProfile (profname : string) (h : webHandler) (w : World)
  : Result * webHandler * World :=
  match getProfile h profname with
  | Some p => ((profname, Some p, None), h, w)
  | None =>
      match latestProfile h with
      | (name, Some p) => ((name, Some p, None), h, w)
      | (_, None) => createProfile ProfileTypeCPU defaultSamplePeriod h w
      end
  end.

(** What a handler writes to the response. *)
Inductive Response :=
| HttpError (msg : string) (code : Z)
| Redirect.

Definition genprof (ParseDuration : string -> string + time.Duration)
    (u : url.Values) (h : webHandler) (w : World) : list Response * webHandler * World :=
  let profType := getProfileTypeFromQuery u in
  let period := getSamplePerioidFromQuery ParseDuration u in
  let '(_, _, err, h', w') := createProfile profType period h w in
  (match err with
   | Some _ => [HttpError "fail to create a profile" 500]
   | None => []
   end ++ [Redirect], h', w').

Definition clearprof (u : url.Values) (h : webHandler) : list Response * webHandler :=
  let name := getProfileNameFromQuery u in
  if String.eqb name "" then ([Redirect], set_profCache ∅ h)
  else ([Redirect], set_profCache (delete name (profCache h)) h).

(** ** [createProfile] as interleaved goroutines *)

(** Where a goroutine stands inside [createProfile]; the constructors follow
    the statements of the function in order. *)
Inductive pc :=
| AtLock                                         (* h.mtx.Lock() *)
| AtCheck                                        (* if h.inProfiling *)
| AtUnlockBusy                                   (* h.mtx.Unlock(); return error *)
| AtUnlock                                       (* h.mtx.Unlock() *)
| AtSetFlag                                      (* h.inProfiling = true *)
| AtCapture                                      (* name, sampling, decoding *)
| AtLockCache (profName : string) (p : Profile)  (* h.mtx.Lock() *)
| AtInsert (profName : string) (p : Profile)     (* h.profCache[profName] = p *)
| AtUnlockCache (profName : string) (p : Profile)(* h.mtx.Unlock() *)
| AtDefer (r : Result)                           (* deferred h.inProfiling = false *)
| Returned (r : Result).

Global Instance pc_eq_dec : EqDecision pc.
Proof. solve_decision. Defined.

(** One statement of one goroutine.  [None]: the goroutine cannot move, as
    it waits for the mutex or has returned.  The stretch from the name to the
    decoding touches nothing of the handler and is one step. *)
Definition step (profType : string) (samplePeriod : time.Duration)
    (l : pc) (h : webHandler) (w : World) : option (pc * webHandler * World) :=
  match l with
  | AtLock => if mtx h then None else Some (AtCheck, set_mtx true h, w)
  | AtCheck => Some (if inProfiling h then AtUnlockBusy else AtUnlock, h, w)
  | AtUnlockBusy => Some (Returned (failed "already in profiling"), set_mtx false h, w)
  | AtUnlock => Some (AtSetFlag, set_mtx false h, w)
  | AtSetFlag => Some (AtCapture, set_inProfiling true h, w)
  | AtCapture =>
      match sample profType samplePeriod w with
      | (_, inl err, w') => Some (AtDefer (failed err), h, w')
      | (profName, inr p, w') => Some (AtLockCache profName p, h, w')
      end
  | AtLockCache n p => if mtx h then None else Some (AtInsert n p, set_mtx true h, w)
  | AtInsert n p => Some (AtUnlockCache n p, set_profCache (<[n := p]> (profCache h)) h, w)
  | AtUnlockCache n p => Some (AtDefer (n, Some p, None), set_mtx false h, w)
  | AtDefer r => Some (Returned r, set_inProfiling false h, w)
  | Returned _ => None
  end.

(** A goroutine serving one capture request. *)
Record goroutine := mkGo {
  go_type : string;
  go_period : time.Duration;
  go_pc : pc
}.

Record system := mkSys {
  gos : list goroutine;
  handler : webHandler;
  world : World
}.

(** Goroutine [i] makes its next step. *)
Definition sched (i : nat) (s : system) : option system :=
  g ← gos s !! i;
  '(l, h, w) ← step (go_type g) (go_period g) (go_pc g) (handler s) (world s);
  Some (mkSys (<[i := mkGo (go_type g) (go_period g) l]> (gos s)) h w).

(** A schedule names the goroutine that moves at each instant. *)
Fixpoint run (schedule : list nat) (s : system) : option system :=
  match schedule with
  | [] => Some s
  | i :: rest => s' ← sched i s; run rest s'
  end.

(** The goroutine has set the flag and its deferred function has not run:
    its capture is executing. *)
Definition in_capture (l : pc) : bool :=
  match l with
  | AtCapture | AtLockCache _ _ | AtInsert _ _ | AtUnlockCache _ _ | AtDefer _ => true
  | _ => false
  end.

(** The goroutines whose capture is executing at this instant. *)
Definition capturing (s : system) : list goroutine :=
  filter (λ g, in_capture (go_pc g) = true) (gos s).

(** No capture in progress, nobody holds the mutex. *)
Definition idle (h : webHandler) : Prop := inProfiling h = false ∧ mtx h = false.

(** ** The call graph handed to the flame graph *)

Module graph.

(** A [*graph.Node], as far as the handler reads it.  Two nodes are the
    same node when their addresses are equal; the edge maps [n.In] and
    [n.Out] are keyed by node, and [Out] lists its keys in the order the
    [range] over the map happens to visit them. *)
Record Node := mkNode {
  addr : nat;
  Info_Name : string;
  Info_PrintableName : string;
  CumValue : Z;
  In : list nat;
  Out : list nat
}.

End graph.

(** What the report engine supplies for labels: [graph.ShortenFunctionName],
    [config.FormatValue], and [measurement.Percentage] against
    [config.Total] followed by [strings.TrimSpace]. *)
Record Labels := mkLabels {
  ShortenFunctionName : string -> string;
  FormatValue : Z -> string;
  Percentage : Z -> string
}.

(** ** The flame tree *)

(** [int64] addition wraps around. *)
Definition wrap64 (z : Z) : Z := (z + 2 ^ 63) mod 2 ^ 64 - 2 ^ 63.

(** A [treeNode].  [Children] holds pointers: [Some k] is the [k]-th node
    the handler allocated, [None] is [nil]. *)
Record treeNode := mkTree {
  Name : string;
  FullName : string;
  Cum : Z;
  CumFormat : string;
  Percent : string;
  Children : list (option nat)
}.

Definition add_child (c : option nat) (t : treeNode) : treeNode :=
  mkTree (Name t) (FullName t) (Cum t) (CumFormat t) (Percent t) (Children t ++ [c]).

(** The variables of the first loop.  [heap] holds the nodes allocated so
    far; [nodes] and [nodeMap] hold pointers into it. *)
Record build := mkBuild {
  heap : list treeNode;
  nodes : list nat;
  nroots : nat;
  rootValue : Z;
  nodeArr : list string;
  nodeMap : gmap nat nat
}.

(** The variables before the first round. *)
Definition build0 : build := mkBuild [] [] 0%nat 0 [] ∅.

(** [l[i], l[j] = l[j], l[i]].  Go panics on an index out of range; the
    loop never produces one ([collect_nroots_le] below). *)
Definition swap (l : list nat) (i j : nat) : list nat :=
  match l !! i, l !! j with
  | Some a, Some b => <[j := a]> (<[i := b]> l)
  | _, _ => l
  end.

(** One round of "make all nodes and the map, collect the roots". *)
Definition collect (cfg : Labels) (b : build) (n : graph.Node) : build :=
  let v := graph.CumValue n in
  let fullName := graph.Info_PrintableName n in
  let node := mkTree (ShortenFunctionName cfg fullName) fullName v
                     (FormatValue cfg v) (Percentage cfg v) [] in
  let ptr := length (heap b) in
  let nodes1 := nodes b ++ [ptr] in
  let isroot := bool_decide (length (graph.In n) = 0%nat) in
  mkBuild (heap b ++ [node])
          (if isroot then swap nodes1 (nroots b) (length nodes1 - 1) else nodes1)
          (if isroot then S (nroots b) else nroots b)
          (if isroot then wrap64 (rootValue b + v) else rootValue b)
          (nodeArr b ++ [graph.Info_Name n])
          (<[graph.addr n := ptr]> (nodeMap b)).

(** One round of "populate the child links": [nodeMap[n]] gets one more
    child per key of [n.Out].  A key the map does not hold yields [nil].
    The node itself is always in the map ([collect_nodeMap_total] below), so
    the loop never dereferences [nil]. *)
Definition link (m : gmap nat nat) (hp : list treeNode) (n : graph.Node) : list treeNode :=
  match m !! graph.addr n with
  | Some node =>
      fold_left (λ hp' child, alter (add_child (m !! child)) node hp') (graph.Out n) hp
  | None => hp
  end.

(** The value that is serialised: the synthetic root, the nodes its
    pointers lead to, and the names for the page. *)
Record flame := mkFlame {
  rootNode : treeNode;
  store : list treeNode;
  Nodes : list string
}.

Definition flamegraph (cfg : Labels) (g : list graph.Node) : flame :=
  let b := fold_left (collect cfg) g build0 in
  let hp := fold_left (link (nodeMap b)) g (heap b) in
  let root := mkTree "root" "root" (rootValue b)
                     (FormatValue cfg (rootValue b)) (Percentage cfg (rootValue b))
                     (Some <$> take (nroots b) (nodes b)) in
  mkFlame root hp (nodeArr b).

(** ** Vocabulary for the statements *)

(** The children lists of a flame value: the root's first, then one per
    allocated node. *)
Definition child_lists (f : flame) : list (list (option nat)) :=
  Children (rootNode f) :: (Children <$> store f).

(** How many child links point to the [k]-th allocated node. *)
Definition count_links (k : nat) (cs : list (option nat)) : nat :=
  length (filter (λ c, c = Some k) cs).

Definition links (f : flame) (k : nat) : nat :=
  sum_list (count_links k <$> child_lists f).

(** The node is met when one follows child links from the synthetic root. *)
Inductive reachable (f : flame) : nat -> Prop :=
| reach_root k :
    Some k ∈ Children (rootNode f) -> reachable f k
| reach_child p t k :
    reachable f p -> store f !! p = Some t -> Some k ∈ Children t -> reachable f k.

(** A walk from the synthetic root along child links: the indices taken in
    the [Children] slices, one after the other, and the flame node the walk
    ends in.  The serialised tree shows a node once for every such walk,
    so the walks that end in a node are its occurrences in the tree. *)
Inductive leads_to (f : flame) : list nat -> nat -> Prop :=
| leads_root i k :
    Children (rootNode f) !! i = Some (Some k) -> leads_to f [i] k
| leads_child path p t i k :
    leads_to f path p -> store f !! p = Some t ->
    Children t !! i = Some (Some k) -> leads_to f (path ++ [i]) k.

(** Graph nodes without incoming edges, and the sum of their values. *)
Definition is_root (n : graph.Node) : bool :=
  bool_decide (graph.In n = []).

Definition root_sum (g : list graph.Node) : Z :=
  foldr Z.add 0 (graph.CumValue <$> filter (λ n, is_root n = true) g).

(** The same sum the way [int64] computes it, one addition at a time. *)
Definition root_sum64 (g : list graph.Node) : Z :=
  fold_left (λ acc v, wrap64 (acc + v))
            (graph.CumValue <$> filter (λ n, is_root n = true) g) 0.

(** How many outgoing edges of the graph end in the node at address [a]. *)
Definition count_edges (a : nat) (out : list nat) : nat :=
  length (filter (λ c, c = a) out).

Definition callers (g : list graph.Node) (a : nat) : nat :=
  sum_list ((λ m, count_edges a (graph.Out m)) <$> g).

(** The node at address [a] can be reached from a node without incoming
    edges along outgoing edges that stay inside the graph. *)
Inductive called_from_root (g : list graph.Node) : nat -> Prop :=
| called_root n :
    n ∈ g -> graph.In n = [] -> called_from_root g (graph.addr n)
| called_edge m n :
    m ∈ g -> called_from_root g (graph.addr m) ->
    n ∈ g -> graph.addr n ∈ graph.Out m -> called_from_root g (graph.addr n).

(** Every incoming edge is the outgoing edge of a node of the graph. *)
Definition in_edges_mirrored (g : list graph.Node) : Prop :=
  ∀ n a, n ∈ g -> a ∈ graph.In n ->
    ∃ m, m ∈ g ∧ graph.addr m = a ∧ graph.addr n ∈ graph.Out m.

(** Every outgoing edge between nodes of the graph is an incoming edge of
    its target. *)
Definition out_edges_mirrored (g : list graph.Node) : Prop :=
  ∀ m n, m ∈ g -> n ∈ g -> graph.addr n ∈ graph.Out m -> graph.addr m ∈ graph.In n.

(** The [k]-th node of the graph has no incoming edge. *)
Definition root_at (g : list graph.Node) (k : nat) : Prop :=
  ∃ n, g !! k = Some n ∧ graph.In n = [].

(** The flame node of a graph node as the first loop allocates it. *)
Definition leaf (cfg : Labels) (n : graph.Node) : treeNode :=
  mkTree (ShortenFunctionName cfg (graph.Info_PrintableName n))
         (graph.Info_PrintableName n) (graph.CumValue n)
         (FormatValue cfg (graph.CumValue n)) (Percentage cfg (graph.CumValue n)) [].

Definition with_children (cs : list (option nat)) (t : treeNode) : treeNode :=
  mkTree (Name t) (FullName t) (Cum t) (CumFormat t) (Percent t) (Children t ++ cs).

(** The pointers the second loop appends to the [k]-th node while it walks
    over [g] with the map [m]. *)
Definition appended (m : gmap nat nat) (k : nat) (g : list graph.Node) : list (option nat) :=
  n ← g; if decide (m !! graph.addr n = Some k) then (m !!.) <$> graph.Out n else [].

(** ** Inputs for the examples *)

(** A fresh handler, and one in the middle of a capture. *)
Definition h_fresh : webHandler := mkHandler ∅ false false.
Definition h_busy : webHandler :=
  mkHandler {[ "2024-10-31T08:14:15-5Seconds-cpu" := ProfileAt 7 ]} true false.

(** A handler that holds three profiles. *)
Definition h_three : webHandler :=
  mkHandler (<[ "2024-10-31T08:14:25-5Seconds-heap" := ProfileAt 3 ]>
            (<[ "2024-10-31T08:14:20-5Seconds-cpu" := ProfileAt 2 ]>
            (<[ "2024-10-31T08:14:15-5Seconds-cpu" := ProfileAt 1 ]> ∅)))
            false false.

(** A runtime in which every primitive succeeds, at the Unix epoch. *)
Definition w_epoch : World := mkWorld 0 None None (inr (ProfileAt 1)) [].

(** A runtime whose decoder refuses the buffer. *)
Definition w_garbled : World :=
  mkWorld 0 None None (inl "parsing profile: unrecognized profile format") [].

(** Two capture requests arriving together. *)
Definition two_requests (h : webHandler) (w : World)
    (ty1 : string) (d1 : time.Duration) (ty2 : string) (d2 : time.Duration) : system :=
  mkSys [mkGo ty1 d1 AtLock; mkGo ty2 d2 AtLock] h w.

(** Both goroutines pass the check before either sets the flag. *)
Definition racy_schedule : list nat := [0; 0; 0; 1; 1; 1; 0; 1]%nat.

(** One request on its own. *)
Definition one_request (h : webHandler) (w : World)
    (ty : string) (d : time.Duration) : system :=
  mkSys [mkGo ty d AtLock] h w.

(** Labels that keep names as they are and print values in decimal. *)
Definition plain_labels : Labels := mkLabels id time.digits (λ _, "").

(** [main] calls [a] and [b], and both call [c]. *)
Definition diamond : list graph.Node :=
  [ graph.mkNode 0 "main" "main" 10 [] [1; 2]%nat;
    graph.mkNode 1 "a" "a" 6 [0%nat] [3%nat];
    graph.mkNode 2 "b" "b" 4 [0%nat] [3%nat];
    graph.mkNode 3 "c" "c" 5 [1; 2]%nat [] ].

(** [a] and [b] call each other and nothing else calls them. *)
Definition two_cycle : list graph.Node :=
  [ graph.mkNode 0 "a" "a" 3 [1%nat] [1%nat];
    graph.mkNode 1 "b" "b" 3 [0%nat] [0%nat] ].

(** A call tree with two roots; the second root comes late in the slice. *)
Definition call_tree : list graph.Node :=
  [ graph.mkNode 0 "main" "main" 10 [] [1; 2]%nat;
    graph.mkNode 1 "a" "a" 6 [0%nat] [3%nat];
    graph.mkNode 2 "b" "b" 4 [0%nat] [];
    graph.mkNode 3 "c" "c" 5 [1%nat] [];
    graph.mkNode 4 "gc" "gc" 2 [] [] ].

(** The depth of a node of [call_tree], by address. *)
Definition call_tree_rank (a : nat) : nat :=
  match a with
  | 1 | 2 => 1
  | 3 => 2
  | _ => 0
  end%nat.

(** ** More of the handlers *)

(** The goroutine is between a [Lock] and its [Unlock]. *)
Definition holds_mutex (l : pc) : bool :=
  match l with
  | AtCheck | AtUnlockBusy | AtUnlock | AtInsert _ _ | AtUnlockCache _ _ => true
  | _ => false
  end.

Definition has_returned (l : pc) : bool :=
  match l with
  | Returned _ => true
  | _ => false
  end.

(** Capture requests that have all just been accepted by the server: one
    goroutine each, none of which has run a statement yet. *)
Definition arrivals (reqs : list (string * time.Duration)) (h : webHandler) (w : World)
  : system :=
  mkSys ((λ r, mkGo r.1 r.2 AtLock) <$> reqs) h w.

(** A report variable, as far as [makeReport] touches it: the [value] it
    assigns and the other fields, which it leaves alone. *)
Record variable {Other : Type} := mkVariable {
  value : string;
  other : Other
}.
Arguments variable : clear implicits.

Definition set_value {Other : Type} (x : string) (v : variable Other) : variable Other :=
  mkVariable Other x (other v).

(** The loop of [makeReport] over [vars]:
    [for i := 0; i+1 < len(vars); i += 2 { v[vars[i]].value = vars[i+1] }].
    The map holds pointers; a name the map does not hold yields [nil], and
    the assignment through it panics, which is [None]. *)
Fixpoint overrideVars {Other : Type} (vars : list string)
    (v : gmap string (variable Other)) : option (gmap string (variable Other)) :=
  match vars with
  | name :: x :: rest =>
      match v !! name with
      | Some var => overrideVars rest (<[name := set_value x var]> v)
      | None => None
      end
  | _ => Some v
  end.

(** The value the loop leaves in the variable [name], if it assigns one:
    that of the last pair for the name. *)
Fixpoint last_override (name : string) (vars : list string) : option string :=
  match vars with
  | name' :: x :: rest =>
      match last_override name rest with
      | Some y => Some y
      | None => if decide (name' = name) then Some x else None
      end
  | _ => None
  end.

(** The node names the [dot] handler hands to the page: an empty name, as
    dot numbers its nodes from one, then one name per node. *)
Definition dot_nodes (g : list graph.Node) : list string :=
  fold_left (λ nodes n, nodes ++ [graph.Info_Name n]) g [""].

(** The positions of the nodes without incoming edge, in the order of the
    slice. *)
Definition root_positions (g : list graph.Node) : list nat :=
  (filter (λ kn, is_root kn.2 = true) (imap pair g)).*1.

(** The position of the node with address [a], if the graph has one. *)
Definition position_of (a : nat) (g : list graph.Node) : option nat :=
  fst <$> list_find (λ n, graph.addr n = a) g.

(** The values of the flame nodes a node points to. *)
Definition child_values (f : flame) (t : treeNode) : list Z :=
  omap (λ c : option nat, k ← c; Cum <$> store f !! k) (Children t).

(** A handler with one heap profile, and a runtime that decodes another. *)
Definition w_second : World := mkWorld 400000000 None None (inr (ProfileAt 2)) [].

(** A runtime in which cpu profiling is already switched on elsewhere. *)
Definition w_cpu_busy : World :=
  mkWorld 0 (Some "cpu profiling already in use") None (inr (ProfileAt 1)) [].

(** Report variables as a request without options leaves them. *)
Definition default_vars : gmap string (variable string) :=
  <["call_tree" := mkVariable string "false" "bool"]>
  (<["trim" := mkVariable string "true" "bool"]>
  (<["nodecount" := mkVariable string "-1" "int"]> ∅)).

(** A graph with an edge to a node that is not in the slice. *)
Definition dangling : list graph.Node :=
  [ graph.mkNode 0 "main" "main" 10 [] [1; 9]%nat;
    graph.mkNode 1 "a" "a" 6 [0%nat] [] ].

(* ===================================================================== *)
(** * Part II: the cache and the capture controller                        *)
(* ===================================================================== *)

(** ** The order on names *)

Global Instance name_ge_trans : Transitive name_ge.
Proof. intros a b c Hab Hbc. unfold name_ge in *. by trans b. Qed.

Global Instance name_ge_total : Total name_ge.
Proof. intros a b. unfold name_ge. destruct (total String.le a b); auto. Qed.

Lemma profileNames_perm h : profileNames h ≡ₚ (map_to_list (profCache h)).*1.
Proof. apply merge_sort_Permutation. Qed.

Lemma profileNames_sorted h : StronglySorted name_ge (profileNames h).
Proof. apply (StronglySorted_merge_sort name_ge). Qed.

Lemma elem_of_profileNames h k : k ∈ profileNames h ↔ is_Some (profCache h !! k).
Proof.
  rewrite profileNames_perm, list_elem_of_fmap. split.
  - intros [[k' p] [-> Hin]]. apply elem_of_map_to_list in Hin. eauto.
  - intros [p Hp]. exists (k, p). split; [done|]. by apply elem_of_map_to_list.
Qed.

Lemma profileNames_nil h : profileNames h = [] ↔ profCache h = ∅.
Proof.
  split.
  - intros Hnil. apply map_empty. intros k.
    destruct (profCache h !! k) eqn:Hk; [|done].
    assert (k ∈ profileNames h) as Hin by (apply elem_of_profileNames; eauto).
    rewrite Hnil in Hin. by apply elem_of_nil in Hin.
  - intros Hempty. unfold profileNames. by rewrite Hempty, map_to_list_empty.
Qed.

(** The first name of the sorted slice is in the cache and no name of the
    cache is greater. *)
Lemma profileNames_head h name0 rest :
  profileNames h = name0 :: rest →
  is_Some (profCache h !! name0) ∧
  ∀ k, is_Some (profCache h !! k) → String.le k name0.
Proof.
  intros Hnames. split.
  - apply elem_of_profileNames. rewrite Hnames. left.
  - intros k Hk. apply elem_of_profileNames in Hk.
    pose proof (profileNames_sorted h) as Hs. rewrite Hnames in Hs, Hk.
    apply StronglySorted_inv in Hs as [_ Hall].
    apply elem_of_cons in Hk as [->|Hk]; [done|].
    rewrite Forall_forall in Hall. by apply Hall.
Qed.

Lemma latestProfile_nonempty h :
  profCache h ≠ ∅ →
  ∃ name p, latestProfile h = (name, Some p) ∧ profCache h !! name = Some p ∧
            ∀ k, is_Some (profCache h !! k) → String.le k name.
Proof.
  intros Hne. unfold latestProfile.
  destruct (profileNames h) as [|name0 rest] eqn:Hnames.
  { by apply profileNames_nil in Hnames. }
  destruct (profileNames_head _ _ _ Hnames) as [[p Hp] Hmax].
  exists name0, p. by rewrite Hp.
Qed.

Lemma latestProfile_empty h : profCache h = ∅ → latestProfile h = ("", None).
Proof.
  intros He. unfold latestProfile.
  by apply profileNames_nil in He as ->.
Qed.

(** ** [latestProfile] *)

(** C6. On a cache that holds something [latestProfile] answers the
    greatest name of the cache, in the order of strings, with the profile
    stored under it; on the empty cache it answers the empty name and no
    profile.  After [A < B < C] were inserted the answer is [C]. *)
Theorem latestProfile_greatest :
  (∀ h, profCache h ≠ ∅ →
     ∃ name p, latestProfile h = (name, Some p) ∧ profCache h !! name = Some p ∧
               profileNames h !! 0%nat = Some name ∧
               ∀ k, is_Some (profCache h !! k) → String.le k name) ∧
  (∀ h, profCache h = ∅ → latestProfile h = ("", None)) ∧
  (∀ h A B C pa pb pc,
     String.le A B → A ≠ B → String.le B C → B ≠ C → profCache h = ∅ →
     latestProfile
       (set_profCache (<[C := pc]> (<[B := pb]> (<[A := pa]> (profCache h)))) h)
     = (C, Some pc)).
Proof.
  split; [|split].
  - intros h Hne. destruct (latestProfile_nonempty h Hne) as (name & p & Hl & Hp & Hmax).
    exists name, p. repeat split; try done.
    unfold latestProfile in Hl. destruct (profileNames h) as [|n0 rest]; [done|].
    destruct (profCache h !! n0); by simplify_eq.
  - apply latestProfile_empty.
  - intros h A B C pa pb pc HAB HneAB HBC HneBC Hempty.
    set (h' := set_profCache _ h).
    assert (profCache h' ≠ ∅) as Hne.
    { simpl. apply insert_non_empty. }
    destruct (latestProfile_nonempty h' Hne) as (name & p & -> & Hp & Hmax).
    assert (String.le C name) as HCn.
    { apply Hmax. simpl. rewrite lookup_insert_eq. eauto. }
    assert (String.le name C) as HnC.
    { simpl in Hp. rewrite Hempty in Hp.
      apply lookup_insert_Some in Hp as [[<- _]|[_ Hp]]; [done|].
      apply lookup_insert_Some in Hp as [[<- _]|[_ Hp]]; [done|].
      apply lookup_insert_Some in Hp as [[<- _]|[_ Hp]]; [by trans B|].
      by rewrite lookup_empty in Hp. }
    assert (name = C) as -> by by apply (anti_symm String.le).
    simpl in Hp. rewrite lookup_insert_eq in Hp. by simplify_eq.
Qed.

Lemma latestProfile_greatest_witness :
  (profCache h_three ≠ ∅ ∧
   ∃ name p, latestProfile h_three = (name, Some p) ∧ profCache h_three !! name = Some p ∧
             profileNames h_three !! 0%nat = Some name ∧
             ∀ k, is_Some (profCache h_three !! k) → String.le k name) ∧
  (profCache h_fresh = ∅ ∧ latestProfile h_fresh = ("", None)) ∧
  (String.le "A" "B" ∧ "A" ≠ "B" ∧ String.le "B" "C" ∧ "B" ≠ "C" ∧
   latestProfile
     (set_profCache (<["C" := ProfileAt 3]> (<["B" := ProfileAt 2]>
                    (<["A" := ProfileAt 1]> (profCache h_fresh)))) h_fresh)
   = ("C", Some (ProfileAt 3))).
Proof.
  assert (profCache h_three ≠ ∅) as Hne by (simpl; apply insert_non_empty).
  destruct latestProfile_greatest as (Hfull & Hempty & Habc).
  split; [|split].
  - split; [exact Hne|]. exact (Hfull h_three Hne).
  - split; [reflexivity|]. exact (Hempty h_fresh eq_refl).
  - assert (String.le "A" "B") as H1 by (vm_compute; exact I).
    assert (String.le "B" "C") as H2 by (vm_compute; exact I).
    assert ("A" ≠ "B") as H3 by discriminate.
    assert ("B" ≠ "C") as H4 by discriminate.
    repeat (split; [assumption|]).
    exact (Habc h_fresh "A" "B" "C" _ _ _ H1 H3 H2 H4 eq_refl).
Defined.

(** ** [tryGetProfile] *)



(** ** [createProfile], one goroutine *)

Lemma createProfile_busy profType d h w :
  inProfiling h = true →
  createProfile profType d h w = (failed "already in profiling", h, w).
Proof. unfold createProfile. by intros ->. Qed.

Lemma createProfile_idle profType d h w :
  inProfiling h = false →
  createProfile profType d h w =
  match sample profType d w with
  | (_, inl err, w') => (failed err, h, w')
  | (profName, inr p, w') =>
      ((profName, Some p, None), set_profCache (<[profName := p]> (profCache h)) h, w')
  end.
Proof.
  unfold createProfile. intros Hidle. rewrite Hidle.
  destruct (sample profType d w) as [[name [err|p]] w']; f_equal.
  - f_equal. destruct h; simpl in *; by subst.
  - f_equal. destruct h; simpl in *; by subst.
Qed.

(** One call and the flag.  A capture requested while the flag is set fails
    at once with the in-progress error: the cache, the flag and the runtime
    are as they were, so nothing was sampled and nothing slept.  A capture
    that was let in leaves the flag cleared whatever its outcome. *)
Theorem createProfile_single_flight profType d h w :
  (inProfiling h = true →
     createProfile profType d h w = (failed "already in profiling", h, w)) ∧
  (inProfiling h = false →
     inProfiling (createProfile profType d h w).1.2 = false).
Proof.
  split; [apply createProfile_busy|].
  intros Hidle. rewrite createProfile_idle by done.
  by destruct (sample profType d w) as [[name [err|p]] w'].
Qed.

Lemma createProfile_single_flight_witness :
  (inProfiling h_busy = true ∧
   createProfile "heap" (5 * time.Second) h_busy w_epoch
   = (failed "already in profiling", h_busy, w_epoch)) ∧
  (inProfiling h_fresh = false ∧
   inProfiling (createProfile "cpu" (5 * time.Second) h_fresh w_epoch).1.2 = false) ∧
  (inProfiling h_fresh = false ∧
   inProfiling (createProfile "cpu" (5 * time.Second) h_fresh w_garbled).1.2 = false).
Proof.
  split; [|split]; (split; [reflexivity|]).
  - exact (proj1 (createProfile_single_flight _ _ h_busy w_epoch) eq_refl).
  - exact (proj2 (createProfile_single_flight _ _ h_fresh w_epoch) eq_refl).
  - exact (proj2 (createProfile_single_flight _ _ h_fresh w_garbled) eq_refl).
Defined.

(** ** The sampling stretch *)

Lemma sample_name profType d w :
  (sample profType d w).1.1 = profileName profType d (clock w).
Proof.
  unfold sample, time_Now.
  destruct (capture profType d (emit EvNow w)) as [[err|] w1]; [done|].
  by destruct (profile_Parse w1).
Qed.

(** Only the two known types get as far as the decoder. *)
Lemma sample_decoded profType d w p :
  (sample profType d w).1.2 = inr p →
  profType = ProfileTypeCPU ∨ profType = ProfileTypeHeap.
Proof.
  unfold sample, time_Now, capture.
  destruct (String.eqb_spec profType ProfileTypeCPU) as [->|_]; [by left|].
  destruct (String.eqb_spec profType ProfileTypeHeap) as [->|_]; [by right|].
  done.
Qed.

Lemma sample_unknown profType d w :
  profType ≠ ProfileTypeCPU → profType ≠ ProfileTypeHeap →
  sample profType d w =
  (profileName profType d (clock w), inl "unknown profile type", emit EvNow w).
Proof.
  intros Hc Hh. unfold sample, time_Now, capture.
  destruct (String.eqb_spec profType ProfileTypeCPU) as [?|_]; [done|].
  by destruct (String.eqb_spec profType ProfileTypeHeap) as [?|_].
Qed.

(** A cpu capture that starts sleeps for the period, then stops and decodes. *)
Lemma sample_cpu d w :
  startCPU w = None →
  sample ProfileTypeCPU d w =
  (profileName ProfileTypeCPU d (clock w), parse w,
   mkWorld (clock w + Z.max 0 d) (startCPU w) (writeHeap w) (parse w)
           (trace w ++ [EvNow; EvStartCPUProfile; EvSleep d; EvStopCPUProfile; EvParse])).
Proof.
  intros Hok. unfold sample, time_Now, capture, pprof_StartCPUProfile. simpl.
  rewrite Hok. simpl. unfold profile_Parse, emit. simpl.
  by rewrite <- !app_assoc, ?Hok.
Qed.

(** A heap capture collects garbage, writes the snapshot and decodes it;
    the clock of the model does not move. *)
Lemma sample_heap d w :
  sample ProfileTypeHeap d w =
  (profileName ProfileTypeHeap d (clock w),
   match writeHeap w with Some err => inl err | None => parse w end,
   mkWorld (clock w) (startCPU w) (writeHeap w) (parse w)
           (trace w ++ [EvNow; EvGC; EvWriteHeapProfile] ++
            match writeHeap w with Some _ => [] | None => [EvParse] end)).
Proof.
  unfold sample, time_Now, capture, pprof_WriteHeapProfile. simpl.
  destruct (writeHeap w) as [err|] eqn:Hw; simpl;
    unfold profile_Parse, emit; simpl; rewrite ?Hw, <- ?app_assoc; done.
Qed.

Lemma round_half_even_exact a d : 0 < d → time.round_half_even (a * d) d = a.
Proof.
  intros Hd. unfold time.round_half_even.
  rewrite Z.div_mul, Z.mod_mul by lia.
  by assert ((2 * 0 <? d) = true) as -> by lia.
Qed.

(** A positive integer below [2 ^ 34] is a [float64]. *)
Lemma float64_integer k :
  0 < k < 2 ^ 34 → ∃ e, e < 0 ∧ time.float64 k 1 = (k * 2 ^ (- e), e).
Proof.
  intros Hk. unfold time.float64. assert ((k =? 0) = false) as -> by lia.
  change (Z.log2 1) with 0.
  assert (Z.log2 k < 34) as Hlog by (apply Z.log2_lt_pow2; lia).
  set (e0 := Z.log2 k - 0 - 53).
  set (e := if 2 ^ 53 * (1 * 2 ^ Z.max 0 e0) <=? k * 2 ^ Z.max 0 (- e0)
            then e0 + 1 else e0).
  assert (e < 0) as He by (unfold e, e0; case_match; lia).
  exists e. split; [done|]. f_equal.
  rewrite (Z.max_l 0 e), (Z.max_r 0 (- e)) by lia.
  change (1 * 2 ^ 0) with 1.
  replace (k * 2 ^ (- e)) with ((k * 2 ^ (- e)) * 1) at 1 by lia.
  by apply round_half_even_exact.
Qed.

Lemma Seconds_whole k :
  0 ≤ k → time.Seconds (k * time.Second) = time.float64 k 1.
Proof.
  intros Hk. unfold time.Seconds.
  rewrite Z.div_mul, Z.mod_mul by (by unfold time.Second).
  change (time.float64 0 time.Second) with (0, 0). cbv beta iota.
  change (Z.max 0 (- 0)) with 0. change (Z.max 0 0) with 0. change (2 ^ 0) with 1.
  by rewrite Z.mul_1_r, Z.add_0_r.
Qed.

(** A whole number of seconds, in the range of [int64] nanoseconds, is a
    [float64] and prints as that number. *)
Lemma SecondsF0_whole k :
  0 ≤ k → k * time.Second < 2 ^ 63 →
  time.SecondsF0 (k * time.Second) = time.digits k.
Proof.
  intros Hk Hmax. unfold time.SecondsF0.
  assert (k < 2 ^ 34) as Hsmall by (unfold time.Second in Hmax; lia).
  assert ((k * time.Second <? 0) = false) as Hsign by (unfold time.Second; lia).
  rewrite Z.abs_eq by (unfold time.Second; lia).
  rewrite Seconds_whole, Hsign by done.
  destruct (decide (k = 0)) as [->|Hpos]; [done|].
  destruct (float64_integer k) as (e & He & ->); [lia|].
  rewrite (Z.max_l 0 e), (Z.max_r 0 (- e)) by lia.
  change (2 ^ 0) with 1. rewrite Z.mul_1_r.
  by rewrite round_half_even_exact by (apply Z.pow_pos_nonneg; lia).
Qed.

(** Where the [float64] matters: half a second rounds to the even
    neighbour, a negative fraction keeps its sign, and a period so long that
    its nanoseconds no longer fit the significand is first rounded to a
    [float64], here onto a tie, and then to the even integer. *)
Lemma SecondsF0_rounds_the_float :
  time.SecondsF0 500000000 = "0" ∧
  time.SecondsF0 1500000000 = "2" ∧
  time.SecondsF0 2500000000 = "2" ∧
  time.SecondsF0 (-400000000) = "-0" ∧
  time.Seconds 16777216500000001 = (4503599761588224, -28) ∧
  time.SecondsF0 (-16777216500000001) = "-16777216" ∧
  time.SecondsF0 (-16777216499999999) = "-16777216" ∧
  time.SecondsF0 (-16777217500000001) = "-16777218".
Proof. vm_compute. repeat split. Qed.

(** ** The name of a capture *)

(** C8, as the code has it.  The name of a successful capture is
    [<timestamp>-<duration>Seconds-<type>]: the timestamp is the clock read
    on entry, before any sampling (a cpu capture completes no earlier than
    the period after it); the duration is the [float64] of the period's
    seconds printed without decimals, which for a whole number of seconds
    in the range of [int64] is that number; the type is the type handed in,
    one of the two known ones.  The profile is cached under that name. *)
Theorem createProfile_name profType d h w name p h' w' :
  createProfile profType d h w = ((name, Some p, None), h', w') →
  name = time.Format (clock w) +:+ "-" +:+ time.SecondsF0 d +:+ "Seconds-" +:+ profType ∧
  (∀ k, 0 ≤ k → d = k * time.Second → d < 2 ^ 63 →
     time.SecondsF0 d = time.digits k) ∧
  (profType = ProfileTypeCPU ∨ profType = ProfileTypeHeap) ∧
  (profType = ProfileTypeCPU → clock w' = clock w + Z.max 0 d) ∧
  profCache h' !! name = Some p.
Proof.
  intros Hcreate.
  destruct (inProfiling h) eqn:Hflag.
  { by rewrite createProfile_busy in Hcreate. }
  rewrite createProfile_idle in Hcreate by done.
  pose proof (sample_name profType d w) as Hname.
  pose proof (sample_decoded profType d w) as Hty.
  pose proof (sample_cpu d w) as Hcpu.
  destruct (sample profType d w) as [[name' [err|p']] w''] eqn:Hs; [done|].
  simpl in *. simplify_eq. split; [done|]. split; [|split; [eauto|split]].
  - intros k Hk -> Hmax. by apply SecondsF0_whole.
  - intros ->. unfold sample, time_Now, capture, pprof_StartCPUProfile in Hs.
    simpl in Hs. destruct (startCPU w); simplify_eq. done.
  - simpl. by rewrite lookup_insert_eq.
Qed.

Lemma createProfile_name_witness :
  createProfile "cpu" (5 * time.Second) h_fresh w_epoch
  = (("1970-01-01T00:00:00-5Seconds-cpu", Some (ProfileAt 1), None),
     set_profCache {[ "1970-01-01T00:00:00-5Seconds-cpu" := ProfileAt 1 ]} h_fresh,
     (sample "cpu" (5 * time.Second) w_epoch).2) ∧
  "1970-01-01T00:00:00-5Seconds-cpu"
  = time.Format (clock w_epoch) +:+ "-" +:+ time.SecondsF0 (5 * time.Second) +:+ "Seconds-" +:+ "cpu".
Proof.
  assert (createProfile "cpu" (5 * time.Second) h_fresh w_epoch
  = (("1970-01-01T00:00:00-5Seconds-cpu", Some (ProfileAt 1), None),
     set_profCache {[ "1970-01-01T00:00:00-5Seconds-cpu" := ProfileAt 1 ]} h_fresh,
     (sample "cpu" (5 * time.Second) w_epoch).2)) as Hrun by (vm_compute; reflexivity).
  split; [exact Hrun|].
  exact (proj1 (createProfile_name _ _ _ _ _ _ _ _ Hrun)).
Defined.

(** C8, as the claim has it, fails: a five second cpu capture entered at
    the epoch completes five seconds later, and its name carries the time of
    entry. *)
Lemma createProfile_name_not_completion_time :
  (createProfile "cpu" (5 * time.Second) h_fresh w_epoch).1.1
  = ("1970-01-01T00:00:00-5Seconds-cpu", Some (ProfileAt 1), None) ∧
  clock (createProfile "cpu" (5 * time.Second) h_fresh w_epoch).2 = 5 * time.Second ∧
  profileName "cpu" (5 * time.Second)
    (clock (createProfile "cpu" (5 * time.Second) h_fresh w_epoch).2)
  = "1970-01-01T00:00:05-5Seconds-cpu" ∧
  (createProfile "cpu" (5 * time.Second) h_fresh w_epoch).1.1.1.1
  ≠ profileName "cpu" (5 * time.Second)
      (clock (createProfile "cpu" (5 * time.Second) h_fresh w_epoch).2).
Proof. vm_compute. repeat split; discriminate. Qed.

(** ** Heap captures *)

(** C10. A heap capture that is let in reads the clock, forces a garbage
    collection and writes the snapshot at once: no [time.Sleep] is among its
    calls and the clock is where it was, whatever the period.  The period is
    nevertheless part of the name of the profile it returns. *)
Theorem createProfile_heap_no_wait d h w :
  inProfiling h = false →
  clock (createProfile ProfileTypeHeap d h w).2 = clock w ∧
  trace (createProfile ProfileTypeHeap d h w).2
  = trace w ++ [EvNow; EvGC; EvWriteHeapProfile] ++
    match writeHeap w with Some _ => [] | None => [EvParse] end ∧
  (∀ name p, (createProfile ProfileTypeHeap d h w).1.1 = (name, Some p, None) →
     name = time.Format (clock w) +:+ "-" +:+ time.SecondsF0 d +:+ "Seconds-heap").
Proof.
  intros Hidle. rewrite createProfile_idle, sample_heap by done.
  destruct (writeHeap w) as [err|]; [by repeat split|].
  destruct (parse w) as [err|p]; [by repeat split|].
  repeat split. intros name p' Heq. by simplify_eq/=.
Qed.

Lemma createProfile_heap_no_wait_witness :
  inProfiling h_fresh = false ∧
  clock (createProfile ProfileTypeHeap (30 * time.Second) h_fresh w_epoch).2 = 0 ∧
  trace (createProfile ProfileTypeHeap (30 * time.Second) h_fresh w_epoch).2
  = [EvNow; EvGC; EvWriteHeapProfile; EvParse] ∧
  (createProfile ProfileTypeHeap (30 * time.Second) h_fresh w_epoch).1.1
  = ("1970-01-01T00:00:00-30Seconds-heap", Some (ProfileAt 1), None).
Proof.
  split; [reflexivity|].
  destruct (createProfile_heap_no_wait (30 * time.Second) h_fresh w_epoch eq_refl)
    as (Hclock & Htrace & Hname).
  split; [exact Hclock|]. split; [exact Htrace|].
  vm_compute. reflexivity.
Defined.

(** ** The sample period of a request *)

(** C7. A period that parses and exceeds the maximum of sixty seconds
    becomes the maximum; a period that is absent, empty or does not parse
    becomes the default of five seconds; every other period is the one
    asked for. *)
Theorem getSamplePerioidFromQuery_policy (ParseDuration : string → string + time.Duration)
    (u : url.Values) :
  (∀ d, url.Get u "sd" ≠ "" → ParseDuration (url.Get u "sd") = inr d →
        60 * time.Second < d →
        getSamplePerioidFromQuery ParseDuration u = 60 * time.Second) ∧
  (url.Get u "sd" = "" ∨ (∃ err, ParseDuration (url.Get u "sd") = inl err) →
        getSamplePerioidFromQuery ParseDuration u = 5 * time.Second) ∧
  (∀ d, url.Get u "sd" ≠ "" → ParseDuration (url.Get u "sd") = inr d →
        d ≤ 60 * time.Second →
        getSamplePerioidFromQuery ParseDuration u = d).
Proof.
  unfold getSamplePerioidFromQuery.
  destruct (String.eqb_spec (url.Get u "sd") "") as [Hs|Hs].
  - split; [done|]. split; [done|]. done.
  - split; [|split].
    + intros d _ -> Hd. by assert ((60 * time.Second <? d) = true) as -> by lia.
    + intros [?|[err ->]]; done.
    + intros d _ -> Hd. by assert ((60 * time.Second <? d) = false) as -> by lia.
Qed.

Lemma getSamplePerioidFromQuery_policy_witness :
  (url.Get [("pt", "cpu"); ("sd", "90s")] "sd" ≠ "" ∧
   parseSeconds (url.Get [("pt", "cpu"); ("sd", "90s")] "sd") = inr (90 * time.Second) ∧
   60 * time.Second < 90 * time.Second ∧
   getSamplePerioidFromQuery parseSeconds [("pt", "cpu"); ("sd", "90s")]
   = 60 * time.Second) ∧
  ((∃ err, parseSeconds (url.Get [("sd", "soon")] "sd") = inl err) ∧
   getSamplePerioidFromQuery parseSeconds [("sd", "soon")] = 5 * time.Second) ∧
  (url.Get [("pt", "heap")] "sd" = "" ∧
   getSamplePerioidFromQuery parseSeconds [("pt", "heap")] = 5 * time.Second) ∧
  (url.Get [("sd", "20s")] "sd" ≠ "" ∧
   parseSeconds (url.Get [("sd", "20s")] "sd") = inr (20 * time.Second) ∧
   20 * time.Second ≤ 60 * time.Second ∧
   getSamplePerioidFromQuery parseSeconds [("sd", "20s")] = 20 * time.Second).
Proof.
  split; [|split; [|split]].
  - assert (url.Get [("pt", "cpu"); ("sd", "90s")] "sd" ≠ "") as H1 by discriminate.
    assert (60 * time.Second < 90 * time.Second) as H2 by (vm_compute; reflexivity).
    split; [exact H1|]. split; [reflexivity|]. split; [exact H2|].
    exact (proj1 (getSamplePerioidFromQuery_policy parseSeconds _) _ H1 eq_refl H2).
  - assert (∃ err, parseSeconds (url.Get [("sd", "soon")] "sd") = inl err) as H1
        by (eexists; reflexivity).
    split; [exact H1|].
    exact (proj1 (proj2 (getSamplePerioidFromQuery_policy parseSeconds _)) (or_intror H1)).
  - split; [reflexivity|].
    exact (proj1 (proj2 (getSamplePerioidFromQuery_policy parseSeconds [("pt", "heap")]))
             (or_introl eq_refl)).
  - assert (url.Get [("sd", "20s")] "sd" ≠ "") as H1 by discriminate.
    assert (20 * time.Second ≤ 60 * time.Second) as H2 by (vm_compute; discriminate).
    split; [exact H1|]. split; [reflexivity|]. split; [exact H2|].
    exact (proj2 (proj2 (getSamplePerioidFromQuery_policy parseSeconds _)) _ H1 eq_refl H2).
Defined.

(** ** The type of a request *)

(** C9, as the code has it.  A request without a type, or with an empty
    one, asks for a cpu capture.  A type that is written out is passed on as
    it is, and [createProfile] turns down every type but the two known
    ones: it reads the clock, samples nothing, caches nothing and returns
    the unknown-type error, which [genprof] reports as a failure. *)
Theorem profile_type_policy (ParseDuration : string → string + time.Duration)
    (u : url.Values) (h : webHandler) (w : World) :
  (url.Get u "pt" = "" → getProfileTypeFromQuery u = ProfileTypeCPU) ∧
  (url.Get u "pt" ≠ "" → getProfileTypeFromQuery u = url.Get u "pt") ∧
  (url.Get u "pt" ≠ "" → url.Get u "pt" ≠ ProfileTypeCPU →
   url.Get u "pt" ≠ ProfileTypeHeap → inProfiling h = false →
     ∀ d, createProfile (getProfileTypeFromQuery u) d h w
          = (failed "unknown profile type", h, emit EvNow w) ∧
     genprof ParseDuration u h w
     = ([HttpError "fail to create a profile" 500; Redirect], h, emit EvNow w)).
Proof.
  unfold getProfileTypeFromQuery.
  destruct (String.eqb_spec (url.Get u "pt") "") as [Hpt|Hpt].
  { repeat split; done. }
  split; [done|]. split; [done|].
  intros _ Hcpu Hheap Hidle.
  assert (∀ d, createProfile (url.Get u "pt") d h w
               = (failed "unknown profile type", h, emit EvNow w)) as Hfail.
  { intros d. by rewrite createProfile_idle, sample_unknown. }
  intros d. split; [apply Hfail|].
  unfold genprof, getProfileTypeFromQuery.
  destruct (String.eqb_spec (url.Get u "pt") "") as [?|_]; [done|].
  by rewrite Hfail.
Qed.

Lemma profile_type_policy_witness :
  (url.Get [("sd", "10s")] "pt" = "" ∧
   getProfileTypeFromQuery [("sd", "10s")] = ProfileTypeCPU) ∧
  (url.Get [("pt", "heap")] "pt" ≠ "" ∧
   getProfileTypeFromQuery [("pt", "heap")] = "heap") ∧
  (url.Get [("pt", "goroutine")] "pt" ≠ "" ∧
   url.Get [("pt", "goroutine")] "pt" ≠ ProfileTypeCPU ∧
   url.Get [("pt", "goroutine")] "pt" ≠ ProfileTypeHeap ∧
   inProfiling h_fresh = false ∧
   genprof parseSeconds [("pt", "goroutine")] h_fresh w_epoch
   = ([HttpError "fail to create a profile" 500; Redirect], h_fresh, emit EvNow w_epoch)).
Proof.
  split; [|split].
  - split; [reflexivity|].
    exact (proj1 (profile_type_policy parseSeconds [("sd", "10s")] h_fresh w_epoch) eq_refl).
  - assert (url.Get [("pt", "heap")] "pt" ≠ "") as H1 by discriminate.
    split; [exact H1|].
    exact (proj1 (proj2 (profile_type_policy parseSeconds [("pt", "heap")] h_fresh w_epoch)) H1).
  - assert (url.Get [("pt", "goroutine")] "pt" ≠ "") as H1 by discriminate.
    assert (url.Get [("pt", "goroutine")] "pt" ≠ ProfileTypeCPU) as H2 by discriminate.
    assert (url.Get [("pt", "goroutine")] "pt" ≠ ProfileTypeHeap) as H3 by discriminate.
    repeat (split; [first [assumption | reflexivity]|]).
    exact (proj2 (proj2 (proj2 (profile_type_policy parseSeconds [("pt", "goroutine")]
                                  h_fresh w_epoch)) H1 H2 H3 eq_refl 0)).
Defined.

(** C9, as the claim has it, fails: a request for the type [goroutine] is
    not served as a cpu capture.  The cpu capture of the same instant caches
    a profile; the request caches none and fails. *)
Lemma invalid_type_is_not_cpu :
  getProfileTypeFromQuery [("pt", "goroutine")] = "goroutine" ∧
  (createProfile (getProfileTypeFromQuery [("pt", "goroutine")])
     (5 * time.Second) h_fresh w_epoch).1.1
  = failed "unknown profile type" ∧
  (createProfile ProfileTypeCPU (5 * time.Second) h_fresh w_epoch).1.1
  = ("1970-01-01T00:00:00-5Seconds-cpu", Some (ProfileAt 1), None) ∧
  createProfile (getProfileTypeFromQuery [("pt", "goroutine")])
    (5 * time.Second) h_fresh w_epoch
  ≠ createProfile ProfileTypeCPU (5 * time.Second) h_fresh w_epoch.
Proof. vm_compute. repeat split; discriminate. Qed.

(** ** [clearprof] *)

(** Clearing by name removes that entry and no other; clearing without a
    name empties the cache. *)
Lemma clearprof_named u h k :
  getProfileNameFromQuery u ≠ "" →
  profCache (clearprof u h).2 !! k
  = if decide (getProfileNameFromQuery u = k) then None else profCache h !! k.
Proof.
  intros Hname. unfold clearprof.
  destruct (String.eqb_spec (getProfileNameFromQuery u) "") as [?|_]; [done|].
  simpl. apply lookup_delete.
Qed.

Lemma clearprof_all u h :
  getProfileNameFromQuery u = "" → profCache (clearprof u h).2 = ∅.
Proof. intros Hname. unfold clearprof. by rewrite Hname. Qed.

(** ** [createProfile], interleaved *)

(** X11. Run by itself from a free mutex, the goroutine returns after at
    most nine statements with the answer and the state of [createProfile]. *)
Lemma run_alone profType d h w :
  mtx h = false →
  ∃ n, (n ≤ 9)%nat ∧
    run (replicate n 0%nat) (one_request h w profType d)
    = Some (mkSys [mkGo profType d (Returned (createProfile profType d h w).1.1)]
                  (createProfile profType d h w).1.2
                  (createProfile profType d h w).2).
Proof.
  destruct h as [cache flag m]. simpl. intros ->.
  unfold createProfile, one_request. simpl. destruct flag.
  - exists 3%nat. split; [lia|]. reflexivity.
  - destruct (sample profType d w) as [[name [err|p]] w'] eqn:Hs.
    + exists 6%nat. split; [lia|].
      cbn [replicate run sched gos handler world lookup list_lookup mbind option_bind
           go_type go_period go_pc step mtx inProfiling set_mtx set_inProfiling
           profCache insert list_insert].
      rewrite Hs. reflexivity.
    + exists 9%nat. split; [lia|].
      cbn [replicate run sched gos handler world lookup list_lookup mbind option_bind
           go_type go_period go_pc step mtx inProfiling set_mtx set_inProfiling
           profCache insert list_insert].
      rewrite Hs. reflexivity.
Qed.

(** While the flag is set, a request that takes the mutex returns the
    in-progress error in three statements and leaves the state alone. *)
Lemma run_rejected profType d h w s :
  inProfiling h = true → mtx h = false →
  run [0; 0; 0]%nat (mkSys (mkGo profType d AtLock :: s) h w)
  = Some (mkSys (mkGo profType d (Returned (failed "already in profiling")) :: s) h w).
Proof. destruct h as [cache flag m]. simpl. by intros -> ->. Qed.

(** X12. Two requests on an idle handler, in this order of statements: the
    first runs its Lock, its check, its Unlock and sets the flag; the
    second then runs its Lock, its check and its Unlock; the first runs on
    alone.  The second returns the in-progress error, and within five more
    statements the first returns what [createProfile] returns on its own,
    with the handler and the runtime that call leaves behind, the flag
    cleared.  This holds for every idle handler, runtime, pair of profile
    types and pair of periods. *)
Lemma second_request_rejected h w ty1 d1 ty2 d2 :
  idle h →
  ∃ n, (n ≤ 5)%nat ∧
    run ([0; 0; 0; 0; 1; 1; 1] ++ replicate n 0)%nat (two_requests h w ty1 d1 ty2 d2)
    = Some (mkSys [mkGo ty1 d1 (Returned (createProfile ty1 d1 h w).1.1);
                   mkGo ty2 d2 (Returned (failed "already in profiling"))]
                  (createProfile ty1 d1 h w).1.2
                  (createProfile ty1 d1 h w).2) ∧
    inProfiling (createProfile ty1 d1 h w).1.2 = false.
Proof.
  destruct h as [cache flag m]. intros [Hflag Hmtx]. simpl in *. subst.
  unfold createProfile, two_requests. simpl.
  destruct (sample ty1 d1 w) as [[name [err|p]] w'] eqn:Hs.
  - exists 2%nat. split; [lia|]. split; [|done].
    cbn [app replicate run sched gos handler world lookup list_lookup mbind option_bind
         go_type go_period go_pc step mtx inProfiling set_mtx set_inProfiling
         profCache insert list_insert].
    rewrite Hs. reflexivity.
  - exists 5%nat. split; [lia|]. split; [|done].
    cbn [app replicate run sched gos handler world lookup list_lookup mbind option_bind
         go_type go_period go_pc step mtx inProfiling set_mtx set_inProfiling
         profCache insert list_insert].
    rewrite Hs. reflexivity.
Qed.

(** C2, on the code.  The flag is read under the mutex and set after the
    mutex is released.  Two requests that find the handler idle can each
    pass the check before either sets the flag; both captures then execute
    at the same instant, each about to sample. *)
Theorem createProfile_check_then_set_race h w ty1 d1 ty2 d2 :
  idle h →
  ∃ s, run racy_schedule (two_requests h w ty1 d1 ty2 d2) = Some s ∧
       go_pc <$> gos s = [AtCapture; AtCapture] ∧
       length (capturing s) = 2%nat.
Proof.
  destruct h as [cache flag m]. intros [Hflag Hmtx]. simpl in *. subst.
  eexists. split; [reflexivity|]. split; reflexivity.
Qed.

Lemma createProfile_check_then_set_race_witness :
  idle h_fresh ∧
  ∃ s, run racy_schedule
         (two_requests h_fresh w_epoch "cpu" (5 * time.Second) "heap" (5 * time.Second))
       = Some s ∧
       go_pc <$> gos s = [AtCapture; AtCapture] ∧
       length (capturing s) = 2%nat.
Proof.
  assert (idle h_fresh) as Hidle by (split; reflexivity).
  split; [exact Hidle|].
  exact (createProfile_check_then_set_race h_fresh w_epoch _ _ _ _ Hidle).
Defined.

(* ===================================================================== *)
(** * Part III: the flame tree                                             *)
(* ===================================================================== *)

(** Case analysis on membership in a list that is written out. *)
Ltac members :=
  repeat match goal with
         | H : _ ∈ _ :: _ |- _ => apply elem_of_cons in H as [?|H]; [simplify_eq/=|]
         | H : _ ∈ [] |- _ => by apply elem_of_nil in H
         end.

(** A node of a written-out graph, found by its position. *)
Ltac node_at g i :=
  eexists; split; [apply (list_elem_of_lookup_2 g i); reflexivity|];
  split; [reflexivity|compute_done].

Lemma call_tree_mirrored : in_edges_mirrored call_tree.
Proof.
  intros n a Hn Ha. unfold call_tree in Hn. members;
    first [node_at call_tree 0%nat | node_at call_tree 1%nat].
Qed.

Lemma call_tree_ranked n a :
  n ∈ call_tree → a ∈ graph.In n →
  (call_tree_rank a < call_tree_rank (graph.addr n))%nat.
Proof.
  intros Hn Ha. unfold call_tree in Hn. members; simpl; lia.
Qed.

Lemma call_tree_out_mirrored : out_edges_mirrored call_tree.
Proof.
  intros m n Hm Hn Hedge. unfold call_tree in Hm, Hn.
  members; compute_done.
Qed.

Lemma call_tree_keys m : m ∈ call_tree → NoDup (graph.Out m).
Proof. intros Hm. unfold call_tree in Hm. members; compute_done. Qed.

(** ** The swap that moves a root to the front *)

Lemma swap_last (l : list nat) (x : nat) (r : nat) :
  (r ≤ length l)%nat →
  swap (l ++ [x]) r (length (l ++ [x]) - 1)
  = take r l ++ x :: drop (S r) l ++ take 1 (drop r l).
Proof.
  intros Hr. rewrite length_app. simpl.
  replace (length l + 1 - 1)%nat with (length l) by lia.
  unfold swap.
  pose proof (list_lookup_middle l [] x (length l) eq_refl) as Hlast.
  destruct (decide (r = length l)) as [->|Hne].
  - rewrite Hlast. rewrite !(list_insert_id (l ++ [x])) by done.
    by rewrite take_ge, !drop_ge by lia.
  - assert (r < length l)%nat as Hlt by lia.
    destruct (lookup_lt_is_Some_2 l r Hlt) as [y Hy].
    rewrite (lookup_app_l_Some _ _ _ _ Hy), Hlast.
    rewrite insert_app_l by done.
    rewrite (insert_take_drop l r x) by done.
    rewrite (drop_S l y r Hy). simpl. rewrite take_0.
    replace (length l) with (length (take r l ++ x :: drop (S r) l) + 0)%nat at 1.
    + rewrite insert_app_r. simpl. by rewrite <- app_assoc.
    + rewrite length_app. simpl. rewrite length_take, length_drop. lia.
Qed.

Lemma rotate_perm (l : list nat) (r : nat) :
  drop (S r) l ++ take 1 (drop r l) ≡ₚ drop r l.
Proof.
  destruct (l !! r) as [y|] eqn:Hy.
  - rewrite (drop_S _ _ _ Hy). simpl. rewrite take_0.
    symmetry. apply Permutation_cons_append.
  - apply lookup_ge_None in Hy. by rewrite !drop_ge by lia.
Qed.

(** ** The first loop *)

Lemma collect_snoc cfg g n :
  fold_left (collect cfg) (g ++ [n]) build0
  = collect cfg (fold_left (collect cfg) g build0) n.
Proof. by rewrite fold_left_app. Qed.

Lemma is_root_length n :
  bool_decide (length (graph.In n) = 0%nat) = is_root n.
Proof.
  unfold is_root. apply bool_decide_ext. by destruct (graph.In n).
Qed.

Lemma collect_heap cfg g :
  heap (fold_left (collect cfg) g build0) = leaf cfg <$> g.
Proof.
  induction g as [|n g IH] using rev_ind; [done|].
  rewrite collect_snoc, fmap_app. simpl. by rewrite IH.
Qed.

Lemma collect_nodeArr cfg g :
  nodeArr (fold_left (collect cfg) g build0) = graph.Info_Name <$> g.
Proof.
  induction g as [|n g IH] using rev_ind; [done|].
  rewrite collect_snoc, fmap_app. simpl. by rewrite IH.
Qed.

Lemma collect_rootValue cfg g :
  rootValue (fold_left (collect cfg) g build0) = root_sum64 g.
Proof.
  induction g as [|n g IH] using rev_ind; [done|].
  rewrite collect_snoc. unfold root_sum64 in *.
  rewrite filter_app, fmap_app, fold_left_app. simpl.
  rewrite is_root_length, IH, filter_cons, filter_nil.
  by destruct (is_root n).
Qed.

(** The map sends an address to a node of the graph that has it. *)
Lemma collect_nodeMap_sound cfg g a k :
  nodeMap (fold_left (collect cfg) g build0) !! a = Some k →
  ∃ n, g !! k = Some n ∧ graph.addr n = a.
Proof.
  revert k. induction g as [|n g IH] using rev_ind; intros k; [done|].
  rewrite collect_snoc. simpl. rewrite collect_heap, length_fmap.
  intros [[<- <-]|[_ Hk]]%lookup_insert_Some.
  - exists n. split; [|done]. by apply list_lookup_middle.
  - destruct (IH _ Hk) as (n' & Hn' & <-). exists n'. split; [|done].
    by apply lookup_app_l_Some.
Qed.

(** When no address occurs twice, it sends the address of the [k]-th node
    to [k]. *)
Lemma collect_nodeMap_complete cfg g k n :
  NoDup (graph.addr <$> g) → g !! k = Some n →
  nodeMap (fold_left (collect cfg) g build0) !! graph.addr n = Some k.
Proof.
  revert k n. induction g as [|n' g IH] using rev_ind; intros k n Hnd Hk; [done|].
  rewrite collect_snoc. simpl. rewrite collect_heap, length_fmap.
  rewrite fmap_app in Hnd. apply NoDup_app in Hnd as (Hnd & Hfresh & _).
  apply lookup_snoc_Some in Hk as [[Hlt Hk]|[-> ->]].
  - rewrite lookup_insert_ne; [by apply IH|].
    intros Heq. apply (Hfresh (graph.addr n)).
    + apply list_elem_of_fmap. exists n. split; [done|]. by eapply list_elem_of_lookup_2.
    + rewrite <- Heq. simpl. left.
  - by rewrite lookup_insert_eq.
Qed.

Lemma collect_nodeMap cfg g k n a :
  NoDup (graph.addr <$> g) → g !! k = Some n →
  nodeMap (fold_left (collect cfg) g build0) !! a = Some k ↔ a = graph.addr n.
Proof.
  intros Hnd Hk. split.
  - intros (n' & Hn' & <-)%collect_nodeMap_sound. by simplify_eq.
  - intros ->. by apply collect_nodeMap_complete.
Qed.

(** The second loop finds every node of the graph in the map. *)
Lemma collect_nodeMap_total cfg g n :
  n ∈ g → is_Some (nodeMap (fold_left (collect cfg) g build0) !! graph.addr n).
Proof.
  induction g as [|n' g IH] using rev_ind; intros Hn; [by apply elem_of_nil in Hn|].
  rewrite collect_snoc. simpl.
  destruct (decide (graph.addr n' = graph.addr n)) as [->|Hne].
  - rewrite lookup_insert_eq. eauto.
  - rewrite lookup_insert_ne by done. apply IH.
    apply elem_of_app in Hn as [Hn|Hn]; [done|].
    apply list_elem_of_singleton in Hn. by subst.
Qed.

(** The slice [nodes] holds every pointer once; its first [nroots] entries
    are the roots, the others are not. *)
Lemma collect_nodes cfg g :
  let b := fold_left (collect cfg) g build0 in
  nodes b ≡ₚ seq 0 (length g) ∧
  (nroots b ≤ length g)%nat ∧
  Forall (root_at g) (take (nroots b) (nodes b)) ∧
  Forall (λ k, ¬ root_at g k) (drop (nroots b) (nodes b)).
Proof.
  induction g as [|n g IH] using rev_ind.
  { simpl. repeat split; constructor. }
  rewrite collect_snoc. simpl in IH. destruct IH as (Hperm & Hle & Htake & Hdrop).
  set (b := fold_left (collect cfg) g build0) in *.
  assert (length (nodes b) = length g) as Hlen.
  { by rewrite Hperm, length_seq. }
  assert (∀ k, root_at g k → root_at (g ++ [n]) k) as Hmono.
  { intros k (n' & Hk & Hin). exists n'. split; [|done]. by apply lookup_app_l_Some. }
  assert (∀ k, k ∈ nodes b → ¬ root_at g k → ¬ root_at (g ++ [n]) k) as Hanti.
  { intros k Hk Hnot (n' & Hn' & Hin). apply Hnot. exists n'. split; [|done].
    rewrite Hperm in Hk. apply elem_of_seq in Hk.
    rewrite lookup_app_l in Hn' by lia. done. }
  assert (Forall (λ k, ¬ root_at (g ++ [n]) k) (drop (nroots b) (nodes b))) as Hdrop'.
  { rewrite Forall_forall in Hdrop. apply Forall_forall. intros k Hk.
    apply Hanti; [|by apply Hdrop]. by eapply subseteq_drop. }
  assert (Forall (root_at (g ++ [n])) (take (nroots b) (nodes b))) as Htake'.
  { eapply Forall_impl; [exact Htake|]. done. }
  assert (length (heap b) = length g) as Hheap.
  { unfold b. by rewrite collect_heap, length_fmap. }
  simpl. rewrite Hheap, is_root_length, (length_app g [n]). simpl.
  rewrite seq_app. simpl.
  destruct (is_root n) eqn:Hroot.
  - rewrite swap_last by lia.
    split; [|split; [lia|split]].
    + rewrite rotate_perm, <- Permutation_middle, take_drop, Hperm.
      apply Permutation_cons_append.
    + rewrite (cons_middle (length g)), app_assoc.
      rewrite take_app_length' by (rewrite length_app, length_take; simpl; lia).
      apply Forall_app. split; [done|]. apply Forall_singleton.
      exists n. split; [by apply list_lookup_middle|].
      unfold is_root in Hroot. by apply bool_decide_eq_true in Hroot.
    + rewrite (cons_middle (length g)), app_assoc.
      rewrite drop_app_length' by (rewrite length_app, length_take; simpl; lia).
      by rewrite rotate_perm.
  - split; [by rewrite Hperm|]. split; [lia|]. split.
    + by rewrite take_app_le by lia.
    + rewrite drop_app_le by lia. apply Forall_app. split; [done|].
      apply Forall_singleton. intros (n' & Hn' & Hin).
      rewrite list_lookup_middle in Hn' by done. simplify_eq.
      unfold is_root in Hroot. by apply bool_decide_eq_false in Hroot.
Qed.

Lemma collect_nroots_le cfg g :
  (nroots (fold_left (collect cfg) g build0)
   ≤ length (nodes (fold_left (collect cfg) g build0)))%nat.
Proof.
  destruct (collect_nodes cfg g) as (Hperm & Hle & _).
  by rewrite Hperm, length_seq.
Qed.

Lemma collect_nodes_NoDup cfg g :
  NoDup (nodes (fold_left (collect cfg) g build0)).
Proof.
  destruct (collect_nodes cfg g) as (Hperm & _).
  rewrite Hperm. apply NoDup_seq.
Qed.

(** The root partition holds exactly the nodes without incoming edges. *)
Lemma collect_roots cfg g k :
  k ∈ take (nroots (fold_left (collect cfg) g build0))
           (nodes (fold_left (collect cfg) g build0))
  ↔ root_at g k.
Proof.
  destruct (collect_nodes cfg g) as (Hperm & Hle & Htake & Hdrop).
  set (b := fold_left (collect cfg) g build0) in *. split.
  - intros Hk. rewrite Forall_forall in Htake. by apply Htake.
  - intros Hroot. assert (k ∈ nodes b) as Hk.
    { rewrite Hperm. apply elem_of_seq. destruct Hroot as (n & Hn & _).
      apply lookup_lt_Some in Hn. lia. }
    rewrite <- (take_drop (nroots b) (nodes b)) in Hk.
    apply elem_of_app in Hk as [Hk|Hk]; [done|].
    rewrite Forall_forall in Hdrop. by destruct (Hdrop _ Hk).
Qed.

(** ** The second loop *)

Lemma with_children_nil t : with_children [] t = t.
Proof. destruct t. unfold with_children. simpl. by rewrite app_nil_r. Qed.

Lemma with_children_app cs1 cs2 t :
  with_children cs2 (with_children cs1 t) = with_children (cs1 ++ cs2) t.
Proof. unfold with_children. simpl. by rewrite app_assoc. Qed.

Lemma add_child_with_children c t : add_child c t = with_children [c] t.
Proof. done. Qed.

Lemma append_children_lookup (m : gmap nat nat) (node : nat) outs (hp : list treeNode) k :
  fold_left (λ hp' child, alter (add_child (m !! child)) node hp') outs hp !! k
  = (if decide (k = node) then with_children ((m !!.) <$> outs) else id) <$> hp !! k.
Proof.
  revert hp. induction outs as [|c outs IH]; intros hp; simpl.
  - destruct (decide (k = node)); destruct (hp !! k); simpl; by rewrite ?with_children_nil.
  - rewrite IH. destruct (decide (k = node)) as [->|Hne].
    + rewrite list_lookup_alter_eq. destruct (hp !! node); simpl; [|done].
      by rewrite add_child_with_children, with_children_app.
    + by rewrite list_lookup_alter_ne.
Qed.

Lemma link_lookup m (hp : list treeNode) n k :
  link m hp n !! k
  = with_children (if decide (m !! graph.addr n = Some k)
                   then (m !!.) <$> graph.Out n else []) <$> hp !! k.
Proof.
  unfold link. destruct (m !! graph.addr n) as [node|] eqn:Hnode.
  - rewrite append_children_lookup.
    destruct (decide (k = node)) as [->|Hne].
    + by rewrite decide_True.
    + rewrite decide_False by congruence.
      destruct (hp !! k); simpl; by rewrite ?with_children_nil.
  - rewrite decide_False by done.
    destruct (hp !! k); simpl; by rewrite ?with_children_nil.
Qed.

Lemma appended_cons m k n g :
  appended m k (n :: g)
  = (if decide (m !! graph.addr n = Some k) then (m !!.) <$> graph.Out n else [])
    ++ appended m k g.
Proof. done. Qed.

(** After the second loop the [k]-th node carries the children it had and
    behind them what the loop appended. *)
Lemma link_all_lookup m g (hp : list treeNode) k :
  fold_left (link m) g hp !! k = with_children (appended m k g) <$> hp !! k.
Proof.
  revert hp. induction g as [|n g IH]; intros hp; cbn [fold_left].
  - unfold appended. simpl. destruct (hp !! k); simpl; by rewrite ?with_children_nil.
  - rewrite IH, link_lookup, appended_cons.
    destruct (hp !! k); simpl; [|done]. by rewrite with_children_app.
Qed.

Lemma appended_none m k g :
  (∀ n, n ∈ g → m !! graph.addr n ≠ Some k) → appended m k g = [].
Proof.
  induction g as [|n g IH]; intros Hnone; [done|].
  rewrite appended_cons, decide_False by (apply Hnone; left).
  simpl. apply IH. intros n' Hn'. apply Hnone. by right.
Qed.

(** When the map sends exactly the address of one node to [k], that node's
    outgoing edges are what is appended. *)
Lemma appended_one m k g i n :
  g !! i = Some n →
  (∀ j n', g !! j = Some n' → m !! graph.addr n' = Some k ↔ j = i) →
  appended m k g = (m !!.) <$> graph.Out n.
Proof.
  revert i. induction g as [|n0 g IH]; intros i Hi Honly; [done|].
  rewrite appended_cons. destruct i as [|i]; simplify_eq/=.
  - rewrite decide_True by (by apply (Honly 0%nat)).
    rewrite appended_none; [by rewrite app_nil_r|].
    intros n' [j Hj]%list_elem_of_lookup Hm.
    by apply (Honly (S j) n' Hj) in Hm.
  - rewrite decide_False.
    + simpl. apply (IH i Hi). intros j n' Hj. rewrite (Honly (S j) n' Hj). lia.
    + intros Hm. by apply (Honly 0%nat n0 eq_refl) in Hm.
Qed.

(** ** The flame value in closed form *)

Lemma flamegraph_store_lookup cfg g k :
  store (flamegraph cfg g) !! k
  = (λ n, with_children (appended (nodeMap (fold_left (collect cfg) g build0)) k g)
                        (leaf cfg n)) <$> g !! k.
Proof.
  unfold flamegraph. simpl.
  rewrite link_all_lookup, collect_heap, list_lookup_fmap.
  by destruct (g !! k).
Qed.

(** Each graph node has one flame node, at its position in the slice, with
    one child pointer per outgoing edge. *)
Lemma flamegraph_store cfg g k n :
  NoDup (graph.addr <$> g) → g !! k = Some n →
  store (flamegraph cfg g) !! k
  = Some (with_children
            ((nodeMap (fold_left (collect cfg) g build0) !!.) <$> graph.Out n)
            (leaf cfg n)).
Proof.
  intros Hnd Hk. rewrite flamegraph_store_lookup, Hk. simpl. do 2 f_equal.
  apply (appended_one _ _ _ k n Hk). intros j n' Hj.
  rewrite (collect_nodeMap cfg g k n _ Hnd Hk). split.
  - intros Haddr.
    assert ((graph.addr <$> g) !! j = Some (graph.addr n')) as H1
        by (by rewrite list_lookup_fmap, Hj).
    assert ((graph.addr <$> g) !! k = Some (graph.addr n')) as H2
        by (by rewrite list_lookup_fmap, Hk, Haddr).
    by eapply NoDup_lookup.
  - intros ->. by simplify_eq.
Qed.

Lemma flamegraph_store_length cfg g : length (store (flamegraph cfg g)) = length g.
Proof.
  apply Nat.le_antisymm.
  - apply Nat.nlt_ge. intros Hlt.
    destruct (lookup_lt_is_Some_2 (store (flamegraph cfg g)) (length g) Hlt) as [t Ht].
    rewrite flamegraph_store_lookup in Ht.
    by rewrite (lookup_ge_None_2 g (length g)) in Ht.
  - apply Nat.nlt_ge. intros Hlt.
    destruct (lookup_lt_is_Some_2 g _ Hlt) as [n Hn].
    pose proof (flamegraph_store_lookup cfg g (length (store (flamegraph cfg g)))) as Hs.
    rewrite Hn in Hs. simpl in Hs.
    by rewrite (lookup_ge_None_2 (store (flamegraph cfg g))) in Hs.
Qed.

Lemma flamegraph_root_children cfg g k :
  Some k ∈ Children (rootNode (flamegraph cfg g)) ↔ root_at g k.
Proof.
  unfold flamegraph. simpl. rewrite <- collect_roots.
  rewrite list_elem_of_fmap. split.
  - by intros (j & [= ->] & Hj).
  - intros Hk. by exists k.
Qed.

(** A child pointer of the [k]-th flame node leads to the node at the other
    end of an outgoing edge. *)
Lemma flamegraph_child cfg g p np k :
  NoDup (graph.addr <$> g) → g !! p = Some np →
  (∃ t, store (flamegraph cfg g) !! p = Some t ∧ Some k ∈ Children t)
  ↔ ∃ n, g !! k = Some n ∧ graph.addr n ∈ graph.Out np.
Proof.
  intros Hnd Hp. rewrite (flamegraph_store cfg g p np Hnd Hp). split.
  - intros (t & [= <-] & Hin). simpl in Hin.
    apply list_elem_of_fmap in Hin as (c & Hc & Hin). symmetry in Hc.
    destruct (collect_nodeMap_sound _ _ _ _ Hc) as (n & Hn & <-). eauto.
  - intros (n & Hn & Hin). eexists. split; [done|]. simpl.
    apply list_elem_of_fmap. exists (graph.addr n). split; [|done].
    symmetry. by apply collect_nodeMap_complete.
Qed.

(** ** The value of the synthetic root *)

Lemma wrap64_add_l a b : wrap64 (wrap64 a + b) = wrap64 (a + b).
Proof.
  unfold wrap64. f_equal.
  replace ((a + 2 ^ 63) mod 2 ^ 64 - 2 ^ 63 + b + 2 ^ 63)
    with ((a + 2 ^ 63) mod 2 ^ 64 + b) by lia.
  rewrite Zplus_mod_idemp_l. f_equal. lia.
Qed.

Lemma wrap64_id z : - 2 ^ 63 ≤ z < 2 ^ 63 → wrap64 z = z.
Proof. intros Hz. unfold wrap64. rewrite Z.mod_small; lia. Qed.

Lemma fold_wrap64 vs acc :
  fold_left (λ a v, wrap64 (a + v)) vs (wrap64 acc) = wrap64 (acc + foldr Z.add 0 vs).
Proof.
  revert acc. induction vs as [|v vs IH]; intros acc; simpl.
  - by rewrite Z.add_0_r.
  - rewrite wrap64_add_l, IH. f_equal. lia.
Qed.

(** Adding with wrap-around at every step gives the sum, wrapped once. *)
Lemma root_sum64_wrap g : root_sum64 g = wrap64 (root_sum g).
Proof.
  unfold root_sum64, root_sum.
  change 0 with (wrap64 0) at 1. by rewrite fold_wrap64.
Qed.

(** ** Reachability *)

Lemma same_addr_same_index g i j n n' :
  NoDup (graph.addr <$> g) → g !! i = Some n → g !! j = Some n' →
  graph.addr n = graph.addr n' → i = j.
Proof.
  intros Hnd Hi Hj Haddr.
  apply (NoDup_lookup (graph.addr <$> g) i j (graph.addr n) Hnd).
  - by rewrite list_lookup_fmap, Hi.
  - by rewrite list_lookup_fmap, Hj, Haddr.
Qed.

Lemma reachable_called cfg g k :
  NoDup (graph.addr <$> g) →
  reachable (flamegraph cfg g) k →
  ∃ n, g !! k = Some n ∧ called_from_root g (graph.addr n).
Proof.
  intros Hnd Hreach. induction Hreach as [k Hk|p t k _ (np & Hp & Hcalled) Ht Hk].
  - apply flamegraph_root_children in Hk as (n & Hn & Hin).
    exists n. split; [done|]. apply called_root; [|done].
    by eapply list_elem_of_lookup_2.
  - destruct (proj1 (flamegraph_child cfg g p np k Hnd Hp)) as (n & Hn & Hin); [eauto|].
    exists n. split; [done|].
    eapply called_edge; [| exact Hcalled | | done]; by eapply list_elem_of_lookup_2.
Qed.

Lemma called_reachable cfg g a :
  NoDup (graph.addr <$> g) →
  called_from_root g a →
  ∀ k n, g !! k = Some n → graph.addr n = a → reachable (flamegraph cfg g) k.
Proof.
  intros Hnd Hcalled.
  induction Hcalled as [n0 Hn0 Hin|m n0 Hm _ IH Hn0 Hedge]; intros k n Hk Haddr.
  - apply list_elem_of_lookup in Hn0 as [i Hi].
    assert (k = i) as -> by eauto using same_addr_same_index. simplify_eq.
    apply reach_root, flamegraph_root_children. by exists n0.
  - apply list_elem_of_lookup in Hm as [p Hp].
    apply list_elem_of_lookup in Hn0 as [i Hi].
    assert (k = i) as -> by eauto using same_addr_same_index. simplify_eq.
    destruct (proj2 (flamegraph_child cfg g p m i Hnd Hp)) as (t & Ht & Hin); [eauto|].
    eapply reach_child; [|exact Ht|exact Hin]. by eapply IH.
Qed.

(** In a graph whose incoming edges all come from nodes of lower rank, each
    node is called from a root. *)
Lemma ranked_called g (rank : nat → nat) :
  in_edges_mirrored g →
  (∀ n a, n ∈ g → a ∈ graph.In n → (rank a < rank (graph.addr n))%nat) →
  ∀ n, n ∈ g → called_from_root g (graph.addr n).
Proof.
  intros Hmirror Hrank n.
  remember (rank (graph.addr n)) as r eqn:Hr. revert n Hr.
  induction r as [r IH] using lt_wf_ind. intros n -> Hn.
  destruct (graph.In n) as [|a ins] eqn:Hin.
  - by apply called_root.
  - destruct (Hmirror n a Hn) as (m & Hm & <- & Hout); [rewrite Hin; left|].
    eapply called_edge; [exact Hm| |exact Hn|exact Hout].
    eapply IH; [|done|done]. apply Hrank; [done|]. rewrite Hin. left.
Qed.

(** C3, as the code has it.  The synthetic root carries the sum of the
    values of the nodes without incoming edges, added the way [int64] adds
    (the plain sum whenever that fits), and its children are exactly those
    nodes.  Each graph node has its flame node; the flame node is met from
    the root exactly when the graph node is called, directly or through
    others, from a node without incoming edges.  That is every node when
    incoming edges mirror outgoing ones and no calls go round in a circle,
    as in the call trees the handler asks for. *)
Theorem flamegraph_root_and_reach cfg g :
  NoDup (graph.addr <$> g) →
  Cum (rootNode (flamegraph cfg g)) = wrap64 (root_sum g) ∧
  (- 2 ^ 63 ≤ root_sum g < 2 ^ 63 → Cum (rootNode (flamegraph cfg g)) = root_sum g) ∧
  (∀ k, Some k ∈ Children (rootNode (flamegraph cfg g)) ↔ root_at g k) ∧
  (∀ k n, g !! k = Some n →
     (∃ t, store (flamegraph cfg g) !! k = Some t ∧
           FullName t = graph.Info_PrintableName n ∧ Cum t = graph.CumValue n) ∧
     (reachable (flamegraph cfg g) k ↔ called_from_root g (graph.addr n))) ∧
  (∀ rank : nat → nat,
     in_edges_mirrored g →
     (∀ n a, n ∈ g → a ∈ graph.In n → (rank a < rank (graph.addr n))%nat) →
     ∀ k n, g !! k = Some n → reachable (flamegraph cfg g) k).
Proof.
  intros Hnd.
  assert (Cum (rootNode (flamegraph cfg g)) = wrap64 (root_sum g)) as Hcum.
  { unfold flamegraph. simpl. by rewrite collect_rootValue, root_sum64_wrap. }
  split; [done|]. split; [|split; [|split]].
  - intros Hfit. by rewrite Hcum, wrap64_id.
  - apply flamegraph_root_children.
  - intros k n Hk. split.
    + rewrite (flamegraph_store cfg g k n Hnd Hk). by eexists.
    + split.
      * intros (n' & Hn' & Hcalled)%reachable_called; [|done]. by simplify_eq.
      * intros Hcalled. by eapply called_reachable.
  - intros rank Hmirror Hrank k n Hk.
    eapply called_reachable; [done| |exact Hk|done].
    eapply ranked_called; [done|done|]. by eapply list_elem_of_lookup_2.
Qed.

(** C3, as the claim has it, fails on a graph without roots: the synthetic
    root of [two_cycle] has no child, and neither node is met from it. *)
Lemma two_cycle_unreachable :
  NoDup (graph.addr <$> two_cycle) ∧
  Children (rootNode (flamegraph plain_labels two_cycle)) = [] ∧
  length (store (flamegraph plain_labels two_cycle)) = 2%nat ∧
  ¬ reachable (flamegraph plain_labels two_cycle) 0 ∧
  ¬ reachable (flamegraph plain_labels two_cycle) 1.
Proof.
  assert (∀ k, ¬ reachable (flamegraph plain_labels two_cycle) k) as Hnone.
  { intros k Hreach. induction Hreach as [k Hk|]; [|done].
    vm_compute in Hk. by apply elem_of_nil in Hk. }
  split; [|split; [reflexivity|split; [reflexivity|split; apply Hnone]]].
  compute_done.
Qed.

Lemma flamegraph_root_and_reach_witness :
  NoDup (graph.addr <$> call_tree) ∧
  Cum (rootNode (flamegraph plain_labels call_tree)) = 12 ∧
  Children (rootNode (flamegraph plain_labels call_tree)) = [Some 0%nat; Some 4%nat] ∧
  in_edges_mirrored call_tree ∧
  ∀ k n, call_tree !! k = Some n → reachable (flamegraph plain_labels call_tree) k.
Proof.
  assert (NoDup (graph.addr <$> call_tree)) as Hnd by compute_done.
  destruct (flamegraph_root_and_reach plain_labels call_tree Hnd)
    as (Hcum & Hfit & Hroots & Hnodes & Hall).
  split; [exact Hnd|]. split; [exact Hcum|]. split; [reflexivity|].
  split; [exact call_tree_mirrored|].
  exact (Hall call_tree_rank call_tree_mirrored call_tree_ranked).
Defined.

(** ** Counting child links *)

Lemma count_links_pointers k (l : list nat) :
  count_links k (Some <$> l) = length (filter (λ j, j = k) l).
Proof.
  unfold count_links. induction l as [|j l IH]; [done|].
  rewrite fmap_cons, !filter_cons.
  destruct (decide (j = k)) as [->|Hne].
  - rewrite decide_True by done. simpl. by rewrite IH.
  - rewrite decide_False by congruence. done.
Qed.

Lemma count_NoDup k (l : list nat) :
  NoDup l → length (filter (λ j, j = k) l) = if decide (k ∈ l) then 1%nat else 0%nat.
Proof.
  induction 1 as [|j l Hj Hnd IH]; [done|].
  rewrite filter_cons. destruct (decide (j = k)) as [->|Hne].
  - simpl. rewrite IH, decide_False, decide_True by (done || left). done.
  - rewrite IH. destruct (decide (k ∈ l)) as [Hin|Hout].
    + by rewrite decide_True by (by right).
    + rewrite decide_False; [done|]. intros [->|?]%elem_of_cons; done.
Qed.

Lemma count_links_edges (f : nat → option nat) k a (out : list nat) :
  (∀ c, f c = Some k ↔ c = a) →
  count_links k (f <$> out) = count_edges a out.
Proof.
  intros Hf. unfold count_links, count_edges.
  induction out as [|c out IH]; [done|].
  rewrite fmap_cons, !filter_cons.
  destruct (decide (c = a)) as [->|Hne].
  - rewrite decide_True by (by apply Hf). simpl. by rewrite IH.
  - rewrite decide_False by (by rewrite Hf). done.
Qed.

Lemma flamegraph_children cfg g :
  NoDup (graph.addr <$> g) →
  Children <$> store (flamegraph cfg g)
  = (λ n, (nodeMap (fold_left (collect cfg) g build0) !!.) <$> graph.Out n) <$> g.
Proof.
  intros Hnd. apply list_eq. intros k. rewrite !list_lookup_fmap.
  destruct (g !! k) as [n|] eqn:Hk.
  - by rewrite (flamegraph_store cfg g k n Hnd Hk).
  - rewrite lookup_ge_None_2; [done|].
    rewrite flamegraph_store_length. by apply lookup_ge_None.
Qed.

(** A node is linked once under the synthetic root if it has no incoming
    edge, and once for every outgoing edge of the graph that ends in it. *)
Lemma flamegraph_links_count cfg g k n :
  NoDup (graph.addr <$> g) → g !! k = Some n →
  links (flamegraph cfg g) k
  = ((if is_root n then 1 else 0) + callers g (graph.addr n))%nat.
Proof.
  intros Hnd Hk. unfold links, child_lists. rewrite fmap_cons.
  change (sum_list (?x :: ?l)) with (x + sum_list l)%nat. f_equal.
  - unfold flamegraph. cbn [rootNode Children].
    rewrite count_links_pointers, count_NoDup.
    + unfold is_root. destruct (decide (k ∈ _)) as [Hin|Hout].
      * apply collect_roots in Hin as (n' & Hn' & Hin). simplify_eq.
        by rewrite bool_decide_eq_true_2.
      * rewrite bool_decide_eq_false_2; [done|]. intros Hin. apply Hout.
        apply collect_roots. by exists n.
    + apply (sublist_NoDup _ _ (collect_nodes_NoDup cfg g)), sublist_take.
  - rewrite (flamegraph_children cfg g Hnd). unfold callers.
    rewrite <- list_fmap_compose. f_equal. apply list_fmap_ext.
    intros j m _. simpl. apply count_links_edges. intros c.
    apply (collect_nodeMap cfg g k n c Hnd Hk).
Qed.

Lemma sum_list_one {A} (f : A → nat) (l : list A) i x :
  l !! i = Some x → f x = 1%nat →
  (∀ j y, l !! j = Some y → j ≠ i → f y = 0%nat) →
  sum_list (f <$> l) = 1%nat.
Proof.
  revert i. induction l as [|y l IH]; intros i Hi Hone Hzero; [done|].
  rewrite fmap_cons. simpl. destruct i as [|i]; simplify_eq/=.
  - rewrite Hone. f_equal.
    assert (∀ l', (∀ j y, l' !! j = Some y → f y = 0%nat) → sum_list (f <$> l') = 0%nat)
      as Hall.
    { induction l' as [|z l' IH']; intros Hz; [done|]. rewrite fmap_cons. simpl.
      rewrite (Hz 0%nat z eq_refl). apply IH'. intros j y' Hj. by apply (Hz (S j)). }
    apply Hall. intros j y' Hj. by apply (Hzero (S j)).
  - rewrite (Hzero 0%nat y eq_refl) by done. simpl.
    apply (IH i Hi Hone). intros j y' Hj Hne. apply (Hzero (S j) y' Hj). lia.
Qed.

Lemma sum_list_zero {A} (f : A → nat) (l : list A) :
  (∀ y, y ∈ l → f y = 0%nat) → sum_list (f <$> l) = 0%nat.
Proof.
  induction l as [|z l IH]; intros Hz; [done|]. rewrite fmap_cons. simpl.
  rewrite (Hz z) by left. apply IH. intros y Hy. apply Hz. by right.
Qed.

Lemma count_edges_zero a out : a ∉ out → count_edges a out = 0%nat.
Proof.
  intros Hout. unfold count_edges.
  induction out as [|c out IH]; [done|].
  rewrite filter_cons, decide_False.
  - apply IH. intros ?. apply Hout. by right.
  - intros ->. apply Hout. left.
Qed.

Lemma count_edges_one a out : NoDup out → a ∈ out → count_edges a out = 1%nat.
Proof.
  intros Hnd Hin. unfold count_edges. by rewrite count_NoDup, decide_True.
Qed.

(** With mirrored edge maps, a node without incoming edge is the target of
    no edge and a node with one incoming edge is the target of one. *)
Lemma callers_at_most_one g k n :
  NoDup (graph.addr <$> g) → in_edges_mirrored g → out_edges_mirrored g →
  (∀ m, m ∈ g → NoDup (graph.Out m)) →
  g !! k = Some n → (length (graph.In n) ≤ 1)%nat →
  callers g (graph.addr n) = length (graph.In n).
Proof.
  intros Hnd Hin Hout Hkeys Hk Hlen.
  assert (n ∈ g) as Hn by (by eapply list_elem_of_lookup_2).
  unfold callers. destruct (graph.In n) as [|a [|b ins]] eqn:Hins; simpl in *; [| |lia].
  - apply sum_list_zero. intros m Hm. apply count_edges_zero. intros Hedge.
    pose proof (Hout m n Hm Hn Hedge) as Hback. rewrite Hins in Hback.
    by apply elem_of_nil in Hback.
  - destruct (Hin n a Hn) as (m0 & Hm0 & Haddr & Hedge); [rewrite Hins; left|].
    apply list_elem_of_lookup in Hm0 as [i Hi].
    apply (sum_list_one _ g i m0 Hi).
    + apply count_edges_one; [|done]. apply Hkeys. by eapply list_elem_of_lookup_2.
    + intros j m Hj Hne. apply count_edges_zero. intros Hedge'.
      assert (m ∈ g) as Hm by (by eapply list_elem_of_lookup_2).
      pose proof (Hout m n Hm Hn Hedge') as Hback. rewrite Hins in Hback.
      apply list_elem_of_singleton in Hback.
      apply Hne. eapply same_addr_same_index; [done|exact Hj|exact Hi|congruence].
Qed.

(** ** Walks from the synthetic root *)

(** The children of the synthetic root are all different. *)
Lemma flamegraph_root_lookup cfg g i j k :
  Children (rootNode (flamegraph cfg g)) !! i = Some (Some k) →
  Children (rootNode (flamegraph cfg g)) !! j = Some (Some k) →
  i = j.
Proof.
  apply NoDup_lookup. unfold flamegraph. cbn [rootNode Children].
  apply (NoDup_fmap_2 Some).
  apply (sublist_NoDup _ _ (collect_nodes_NoDup cfg g)), sublist_take.
Qed.

(** The [i]-th child pointer of a flame node is the flame node of the
    target of the [i]-th outgoing edge. *)
Lemma flamegraph_child_lookup cfg g p t i k :
  NoDup (graph.addr <$> g) →
  store (flamegraph cfg g) !! p = Some t →
  Children t !! i = Some (Some k) →
  ∃ np n, g !! p = Some np ∧ g !! k = Some n ∧
          graph.Out np !! i = Some (graph.addr n).
Proof.
  intros Hnd Ht Hi.
  destruct (g !! p) as [np|] eqn:Hp.
  - rewrite (flamegraph_store cfg g p np Hnd Hp) in Ht.
    injection Ht as <-. simpl in Hi.
    rewrite list_lookup_fmap in Hi.
    destruct (graph.Out np !! i) as [a|] eqn:Ha; [|done].
    simpl in Hi. injection Hi as Hi.
    destruct (collect_nodeMap_sound _ _ _ _ Hi) as (n & Hn & <-).
    by exists np, n.
  - rewrite flamegraph_store_lookup, Hp in Ht. done.
Qed.

(** A walk ends in the flame node of a graph node. *)
Lemma leads_to_node cfg g path k :
  NoDup (graph.addr <$> g) →
  leads_to (flamegraph cfg g) path k → is_Some (g !! k).
Proof.
  intros Hnd [i k' Hk|path' p t i k' _ Ht Hk].
  - destruct (proj1 (flamegraph_root_children cfg g k')) as (n & Hn & _); [|by eauto].
    by eapply list_elem_of_lookup_2.
  - destruct (flamegraph_child_lookup cfg g p t i k' Hnd Ht Hk)
      as (np & n & _ & Hn & _). eauto.
Qed.

(** A node that is met from the root is the end of a walk. *)
Lemma reachable_leads_to f k : reachable f k → ∃ path, leads_to f path k.
Proof.
  induction 1 as [k Hk|p t k _ [path Hpath] Ht Hk].
  - apply list_elem_of_lookup in Hk as [i Hi]. exists [i]. by apply leads_root.
  - apply list_elem_of_lookup in Hk as [i Hi]. exists (path ++ [i]).
    by eapply leads_child.
Qed.

(** In a graph with mirrored edge maps in which no node has two callers
    and no node lists a callee twice, two walks that end in the same flame
    node are the same walk. *)
Lemma leads_to_unique cfg g :
  NoDup (graph.addr <$> g) →
  out_edges_mirrored g →
  (∀ m, m ∈ g → NoDup (graph.Out m)) →
  (∀ n, n ∈ g → (length (graph.In n) ≤ 1)%nat) →
  ∀ path k, leads_to (flamegraph cfg g) path k →
  ∀ path', leads_to (flamegraph cfg g) path' k → path' = path.
Proof.
  intros Hnd Hout Hkeys Hone path k Hpath.
  induction Hpath as [i k Hi|path p t i k Hpath IH Ht Hi]; intros path' Hpath'.
  - destruct (proj1 (flamegraph_root_children cfg g k)) as (n & Hn & Hroot).
    { by eapply list_elem_of_lookup_2. }
    inversion Hpath' as [i' k' Hi'|path2 p' t' i' k' Hpath2 Ht' Hi']; subst.
    + f_equal. by eapply flamegraph_root_lookup.
    + destruct (flamegraph_child_lookup cfg g p' t' i' k Hnd Ht' Hi')
        as (np & n' & Hp & Hn' & Hedge).
      assert (n' = n) as -> by congruence.
      assert (graph.addr np ∈ graph.In n) as Hback.
      { apply Hout; try by eapply list_elem_of_lookup_2. }
      rewrite Hroot in Hback. by apply elem_of_nil in Hback.
  - destruct (flamegraph_child_lookup cfg g p t i k Hnd Ht Hi)
      as (np & n & Hp & Hn & Hedge).
    assert (graph.addr np ∈ graph.In n) as Hback.
    { apply Hout; try by eapply list_elem_of_lookup_2. }
    inversion Hpath' as [i' k' Hi'|path2 p' t' i' k' Hpath2 Ht' Hi']; subst.
    + destruct (proj1 (flamegraph_root_children cfg g k)) as (n' & Hn' & Hroot).
      { by eapply list_elem_of_lookup_2. }
      assert (n' = n) as -> by congruence.
      rewrite Hroot in Hback. by apply elem_of_nil in Hback.
    + destruct (flamegraph_child_lookup cfg g p' t' i' k Hnd Ht' Hi')
        as (np' & n' & Hp' & Hn' & Hedge').
      assert (n' = n) as -> by congruence.
      assert (graph.addr np' ∈ graph.In n) as Hback'.
      { apply Hout; try by eapply list_elem_of_lookup_2. }
      assert (p' = p) as ->.
      { eapply same_addr_same_index; [done|exact Hp'|exact Hp|].
        specialize (Hone n (list_elem_of_lookup_2 _ _ _ Hn)).
        destruct (graph.In n) as [|a [|b ins]]; simpl in Hone; [|  |lia].
        - by apply elem_of_nil in Hback.
        - apply list_elem_of_singleton in Hback, Hback'. congruence. }
      assert (np' = np) as -> by congruence.
      rewrite (IH _ Hpath2). f_equal. f_equal.
      eapply NoDup_lookup; [|exact Hedge'|exact Hedge].
      apply Hkeys. by eapply list_elem_of_lookup_2.
Qed.

(** No node of [call_tree] has two callers. *)
Lemma call_tree_one_caller n : n ∈ call_tree → (length (graph.In n) ≤ 1)%nat.
Proof. intros Hn. unfold call_tree in Hn. members; simpl; lia. Qed.

(** C4, as the code has it.  Each graph node has one flame node, and that
    node is linked as a child once under the synthetic root when the graph
    node has no incoming edge, and once for every outgoing edge that ends in
    it.  In a forest, that is when the edge maps mirror each other, no node
    lists a callee twice, no calls go round in a circle and every node has
    at most one caller, each node appears exactly once in the tree: one
    child link points to its flame node, and one walk from the synthetic
    root, and no other, ends in it.  A node with several callers hangs
    under each of them. *)
Theorem flamegraph_appears_once cfg g :
  NoDup (graph.addr <$> g) →
  (∀ k n, g !! k = Some n →
     links (flamegraph cfg g) k
     = ((if is_root n then 1 else 0) + callers g (graph.addr n))%nat) ∧
  (∀ rank : nat → nat,
     in_edges_mirrored g → out_edges_mirrored g →
     (∀ m, m ∈ g → NoDup (graph.Out m)) →
     (∀ n a, n ∈ g → a ∈ graph.In n → (rank a < rank (graph.addr n))%nat) →
     (∀ n, n ∈ g → (length (graph.In n) ≤ 1)%nat) →
     ∀ k n, g !! k = Some n →
       links (flamegraph cfg g) k = 1%nat ∧
       ∃ path, leads_to (flamegraph cfg g) path k ∧
               ∀ path', leads_to (flamegraph cfg g) path' k → path' = path).
Proof.
  intros Hnd. split; [intros k n Hk; by apply flamegraph_links_count|].
  intros rank Hin Hout Hkeys Hrank Hone k n Hk.
  assert (n ∈ g) as Hn by (by eapply list_elem_of_lookup_2).
  split.
  - rewrite (flamegraph_links_count cfg g k n Hnd Hk).
    rewrite (callers_at_most_one g k n Hnd Hin Hout Hkeys Hk (Hone n Hn)).
    specialize (Hone n Hn). unfold is_root.
    destruct (graph.In n) as [|a [|b ins]]; simpl in *; [done|done|lia].
  - destruct (reachable_leads_to (flamegraph cfg g) k) as [path Hpath].
    { eapply (called_reachable cfg g (graph.addr n)); [done| |exact Hk|done].
      by eapply ranked_called. }
    exists path. split; [done|].
    by apply (leads_to_unique cfg g Hnd Hout Hkeys Hone).
Qed.

Lemma flamegraph_appears_once_witness :
  NoDup (graph.addr <$> call_tree) ∧
  in_edges_mirrored call_tree ∧ out_edges_mirrored call_tree ∧
  (∀ m, m ∈ call_tree → NoDup (graph.Out m)) ∧
  (∀ n a, n ∈ call_tree → a ∈ graph.In n →
     (call_tree_rank a < call_tree_rank (graph.addr n))%nat) ∧
  (∀ n, n ∈ call_tree → (length (graph.In n) ≤ 1)%nat) ∧
  call_tree !! 3%nat = Some (graph.mkNode 3 "c" "c" 5 [1%nat] []) ∧
  links (flamegraph plain_labels call_tree) 3 = 1%nat ∧
  ∃ path, leads_to (flamegraph plain_labels call_tree) path 3 ∧
          ∀ path', leads_to (flamegraph plain_labels call_tree) path' 3 →
                   path' = path.
Proof.
  assert (NoDup (graph.addr <$> call_tree)) as Hnd by compute_done.
  split; [exact Hnd|].
  split; [exact call_tree_mirrored|]. split; [exact call_tree_out_mirrored|].
  split; [exact call_tree_keys|]. split; [exact call_tree_ranked|].
  split; [exact call_tree_one_caller|]. split; [reflexivity|].
  exact (proj2 (flamegraph_appears_once plain_labels call_tree Hnd)
           call_tree_rank call_tree_mirrored call_tree_out_mirrored
           call_tree_keys call_tree_ranked call_tree_one_caller 3%nat _ eq_refl).
Defined.

(** C4, as the claim has it, fails on a node with two callers: in [diamond]
    the flame node of [c] is a child of the flame node of [a] and of the
    flame node of [b], and the tree shows it twice, once below each. *)
Lemma diamond_shared :
  NoDup (graph.addr <$> diamond) ∧
  Children (rootNode (flamegraph plain_labels diamond)) = [Some 0%nat] ∧
  Children <$> store (flamegraph plain_labels diamond)
  = [[Some 1; Some 2]; [Some 3]; [Some 3]; []]%nat ∧
  links (flamegraph plain_labels diamond) 3 = 2%nat ∧
  links (flamegraph plain_labels diamond) 3 ≠ 1%nat ∧
  leads_to (flamegraph plain_labels diamond) [0; 0; 0]%nat 3 ∧
  leads_to (flamegraph plain_labels diamond) [0; 1; 0]%nat 3 ∧
  [0; 0; 0]%nat ≠ [0; 1; 0]%nat.
Proof.
  split; [compute_done|]. split; [reflexivity|]. split; [reflexivity|].
  split; [reflexivity|]. split; [vm_compute; discriminate|].
  assert (leads_to (flamegraph plain_labels diamond) [0%nat] 0) as Hmain.
  { by apply leads_root. }
  split; [|split; [|discriminate]].
  - apply (leads_child _ [0; 0]%nat 1 (mkTree "a" "a" 6 "6" "" [Some 3%nat]) 0 3);
      [|reflexivity|reflexivity].
    by apply (leads_child _ [0%nat] 0
                (mkTree "main" "main" 10 "10" "" [Some 1%nat; Some 2%nat]) 0 1).
  - apply (leads_child _ [0; 1]%nat 2 (mkTree "b" "b" 4 "4" "" [Some 3%nat]) 0 3);
      [|reflexivity|reflexivity].
    by apply (leads_child _ [0%nat] 0
                (mkTree "main" "main" 10 "10" "" [Some 1%nat; Some 2%nat]) 1 2).
Qed.

(* ===================================================================== *)
(** * Part IV: more of the handlers                                        *)
(* ===================================================================== *)

(** ** What a capture does to the cache *)

Lemma createProfile_stored profType d h w name p h' w' :
  createProfile profType d h w = ((name, Some p, None), h', w') →
  name = profileName profType d (clock w) ∧
  profCache h' = <[name := p]> (profCache h).
Proof.
  intros Hc.
  destruct (inProfiling h) eqn:Hflag; [by rewrite createProfile_busy in Hc|].
  rewrite createProfile_idle in Hc by done.
  pose proof (sample_name profType d w) as Hname.
  destruct (sample profType d w) as [[name' [err|p']] w'']; by simplify_eq/=.
Qed.

(** X1. A capture that fails, for whatever reason, leaves the handler as it
    was.  A capture that succeeds stores its profile under its name and
    changes no other entry, and leaves the flag and the mutex as they
    were. *)
Theorem createProfile_cache_frame profType d h w :
  (∀ err, (createProfile profType d h w).1.1.2 = Some err →
     (createProfile profType d h w).1.2 = h) ∧
  (∀ name p, (createProfile profType d h w).1.1 = (name, Some p, None) →
     profCache (createProfile profType d h w).1.2 = <[name := p]> (profCache h) ∧
     (∀ k, k ≠ name →
        profCache (createProfile profType d h w).1.2 !! k = profCache h !! k) ∧
     inProfiling (createProfile profType d h w).1.2 = inProfiling h ∧
     mtx (createProfile profType d h w).1.2 = mtx h).
Proof.
  destruct (inProfiling h) eqn:Hflag.
  - rewrite createProfile_busy by done. split; [done|]. intros name p [=].
  - rewrite createProfile_idle by done.
    destruct (sample profType d w) as [[name' [err'|p']] w']; simpl.
    + split; [done|]. intros name p [=].
    + split; [intros err [=]|]. intros name p [= <- <-].
      repeat split; [|done]. intros k Hk. by rewrite lookup_insert_ne.
Qed.

Lemma createProfile_cache_frame_witness :
  ((createProfile "cpu" (5 * time.Second) h_three w_garbled).1.1.2
   = Some "parsing profile: unrecognized profile format" ∧
   (createProfile "cpu" (5 * time.Second) h_three w_garbled).1.2 = h_three) ∧
  ((createProfile "cpu" (5 * time.Second) h_three w_epoch).1.1
   = ("1970-01-01T00:00:00-5Seconds-cpu", Some (ProfileAt 1), None) ∧
   profCache (createProfile "cpu" (5 * time.Second) h_three w_epoch).1.2
   = <["1970-01-01T00:00:00-5Seconds-cpu" := ProfileAt 1]> (profCache h_three)).
Proof.
  split.
  - assert ((createProfile "cpu" (5 * time.Second) h_three w_garbled).1.1.2
            = Some "parsing profile: unrecognized profile format") as Herr
        by (vm_compute; reflexivity).
    split; [exact Herr|].
    exact (proj1 (createProfile_cache_frame "cpu" (5 * time.Second) h_three w_garbled)
             _ Herr).
  - assert ((createProfile "cpu" (5 * time.Second) h_three w_epoch).1.1
            = ("1970-01-01T00:00:00-5Seconds-cpu", Some (ProfileAt 1), None)) as Hok
        by (vm_compute; reflexivity).
    split; [exact Hok|].
    exact (proj1 (proj2 (createProfile_cache_frame "cpu" (5 * time.Second) h_three w_epoch)
                    _ _ Hok)).
Defined.

(** X2. What a capture returns can be looked up: under the returned name
    [getProfile] finds the returned profile, and a view request that names
    it is answered from the cache without a call to the runtime. *)
Theorem createProfile_then_lookup profType d h w name p h' w' w2 :
  createProfile profType d h w = ((name, Some p, None), h', w') →
  getProfile h' name = Some p ∧
  tryGetProfile name h' w2 = ((name, Some p, None), h', w2).
Proof.
  intros Hcreate.
  destruct (createProfile_stored _ _ _ _ _ _ _ _ Hcreate) as [_ Hcache].
  assert (getProfile h' name = Some p) as Hget.
  { unfold getProfile. by rewrite Hcache, lookup_insert_eq. }
  split; [done|]. unfold tryGetProfile. by rewrite Hget.
Qed.

Lemma createProfile_then_lookup_witness :
  createProfile "heap" (5 * time.Second) h_fresh w_epoch
  = (("1970-01-01T00:00:00-5Seconds-heap", Some (ProfileAt 1), None),
     (createProfile "heap" (5 * time.Second) h_fresh w_epoch).1.2,
     (createProfile "heap" (5 * time.Second) h_fresh w_epoch).2) ∧
  getProfile (createProfile "heap" (5 * time.Second) h_fresh w_epoch).1.2
    "1970-01-01T00:00:00-5Seconds-heap" = Some (ProfileAt 1).
Proof.
  assert (createProfile "heap" (5 * time.Second) h_fresh w_epoch
  = (("1970-01-01T00:00:00-5Seconds-heap", Some (ProfileAt 1), None),
     (createProfile "heap" (5 * time.Second) h_fresh w_epoch).1.2,
     (createProfile "heap" (5 * time.Second) h_fresh w_epoch).2)) as Hrun
      by (vm_compute; reflexivity).
  split; [exact Hrun|].
  exact (proj1 (createProfile_then_lookup _ _ _ _ _ _ _ _ w_garbled Hrun)).
Defined.

(** ** The calls of a cpu capture *)

(** X3. A cpu capture that is let in reads the clock and starts the
    profiler.  If that fails, the error is returned as it is, and nothing
    else is called: no sleep, no stop, no decoding.  Otherwise it sleeps for
    the period, stops the profiler and decodes; the clock has then moved by
    the period (by nothing for a period that is not positive), and an error
    of the decoder is returned as it is. *)
Theorem createProfile_cpu_calls d h w :
  inProfiling h = false →
  (∀ err, startCPU w = Some err →
     createProfile ProfileTypeCPU d h w
     = (failed err, h,
        mkWorld (clock w) (startCPU w) (writeHeap w) (parse w)
                (trace w ++ [EvNow; EvStartCPUProfile]))) ∧
  (startCPU w = None →
     trace (createProfile ProfileTypeCPU d h w).2
     = trace w ++ [EvNow; EvStartCPUProfile; EvSleep d; EvStopCPUProfile; EvParse] ∧
     clock (createProfile ProfileTypeCPU d h w).2 = clock w + Z.max 0 d ∧
     (∀ err, parse w = inl err →
        (createProfile ProfileTypeCPU d h w).1 = (failed err, h))).
Proof.
  intros Hidle. split.
  - intros err Herr. rewrite createProfile_idle by done.
    unfold sample, time_Now, capture, pprof_StartCPUProfile. simpl.
    rewrite Herr. simpl. unfold emit. simpl. by rewrite <- app_assoc, Herr.
  - intros Hok. rewrite createProfile_idle, sample_cpu by done.
    destruct (parse w) as [err|p]; simpl; repeat split; try done.
    by intros err' [= ->].
Qed.

Lemma createProfile_cpu_calls_witness :
  inProfiling h_fresh = false ∧
  (startCPU w_cpu_busy = Some "cpu profiling already in use" ∧
   (createProfile ProfileTypeCPU (5 * time.Second) h_fresh w_cpu_busy).1
   = (failed "cpu profiling already in use", h_fresh)) ∧
  (startCPU w_epoch = None ∧
   clock (createProfile ProfileTypeCPU (5 * time.Second) h_fresh w_epoch).2
   = 5 * time.Second).
Proof.
  split; [reflexivity|]. split; (split; [reflexivity|]).
  - pose proof (proj1 (createProfile_cpu_calls (5 * time.Second) h_fresh w_cpu_busy eq_refl)
                  _ eq_refl) as Hfail.
    by rewrite Hfail.
  - exact (proj1 (proj2 (proj2 (createProfile_cpu_calls (5 * time.Second) h_fresh w_epoch
                                  eq_refl) eq_refl))).
Defined.

(** ** Names within one second *)

Lemma Format_second t1 t2 :
  t1 / time.Second = t2 / time.Second → time.Format t1 = time.Format t2.
Proof. intros Heq. unfold time.Format. by rewrite Heq. Qed.

(** X4. The name tells captures apart by the second they start in.  Two
    captures of the same type and period that start within the same second
    get the same name, and the later one takes the earlier one's place in
    the cache: the cache is as if the earlier capture had never been
    stored. *)
Theorem same_second_same_name profType d h w n1 p1 h1 w1 w1' n2 p2 h2 w2 :
  createProfile profType d h w = ((n1, Some p1, None), h1, w1) →
  createProfile profType d h1 w1' = ((n2, Some p2, None), h2, w2) →
  clock w / time.Second = clock w1' / time.Second →
  n2 = n1 ∧
  profCache h2 = <[n1 := p2]> (profCache h) ∧
  getProfile h2 n1 = Some p2.
Proof.
  intros Hfirst Hsecond Hclock.
  destruct (createProfile_stored _ _ _ _ _ _ _ _ Hfirst) as [Hn1 Hc1].
  destruct (createProfile_stored _ _ _ _ _ _ _ _ Hsecond) as [Hn2 Hc2].
  assert (n2 = n1) as ->.
  { rewrite Hn1, Hn2. unfold profileName. by rewrite (Format_second _ _ Hclock). }
  split; [done|]. rewrite Hc2, Hc1, insert_insert_eq. split; [done|].
  unfold getProfile. by rewrite Hc2, lookup_insert_eq.
Qed.

Lemma same_second_same_name_witness :
  clock w_epoch / time.Second = clock w_second / time.Second ∧
  ∃ h1 w1 h2 w2,
    createProfile "heap" (5 * time.Second) h_fresh w_epoch
    = (("1970-01-01T00:00:00-5Seconds-heap", Some (ProfileAt 1), None), h1, w1) ∧
    createProfile "heap" (5 * time.Second) h1 w_second
    = (("1970-01-01T00:00:00-5Seconds-heap", Some (ProfileAt 2), None), h2, w2) ∧
    profCache h2 = <["1970-01-01T00:00:00-5Seconds-heap" := ProfileAt 2]> (profCache h_fresh).
Proof.
  assert (clock w_epoch / time.Second = clock w_second / time.Second) as Hclock
      by (vm_compute; reflexivity).
  split; [exact Hclock|].
  eexists _, _, _, _.
  assert (createProfile "heap" (5 * time.Second) h_fresh w_epoch
    = (("1970-01-01T00:00:00-5Seconds-heap", Some (ProfileAt 1), None),
       (createProfile "heap" (5 * time.Second) h_fresh w_epoch).1.2,
       (createProfile "heap" (5 * time.Second) h_fresh w_epoch).2)) as H1
      by (vm_compute; reflexivity).
  assert (createProfile "heap" (5 * time.Second)
            (createProfile "heap" (5 * time.Second) h_fresh w_epoch).1.2 w_second
    = (("1970-01-01T00:00:00-5Seconds-heap", Some (ProfileAt 2), None),
       (createProfile "heap" (5 * time.Second)
          (createProfile "heap" (5 * time.Second) h_fresh w_epoch).1.2 w_second).1.2,
       (createProfile "heap" (5 * time.Second)
          (createProfile "heap" (5 * time.Second) h_fresh w_epoch).1.2 w_second).2)) as H2
      by (vm_compute; reflexivity).
  split; [exact H1|]. split; [exact H2|].
  exact (proj1 (proj2 (same_second_same_name _ _ _ _ _ _ _ _ _ _ _ _ _ H1 H2 Hclock))).
Defined.

(** ** Views *)

(** X5. While the cache holds a profile, a view request is answered from
    the cache: it returns a profile of the cache without error, and it
    leaves the handler and the runtime as they are, also when a capture is in
    progress.  With an empty cache and a capture in progress it fails at
    once with the in-progress error. *)
Theorem tryGetProfile_from_cache profname h w :
  (profCache h ≠ ∅ →
     ∃ name p, tryGetProfile profname h w = ((name, Some p, None), h, w) ∧
               profCache h !! name = Some p) ∧
  (profCache h = ∅ → inProfiling h = true →
     tryGetProfile profname h w = (failed "already in profiling", h, w)).
Proof.
  split.
  - intros Hne. unfold tryGetProfile, getProfile.
    destruct (profCache h !! profname) as [p|] eqn:Hp; [by eauto|].
    destruct (latestProfile_nonempty h Hne) as (name & p & Hl & Hname & _).
    rewrite Hl. eauto.
  - intros Hempty Hbusy. unfold tryGetProfile, getProfile.
    rewrite Hempty, lookup_empty, (latestProfile_empty h Hempty).
    by apply createProfile_busy.
Qed.

Lemma tryGetProfile_from_cache_witness :
  (profCache h_busy ≠ ∅ ∧
   ∃ name p, tryGetProfile "" h_busy w_epoch = ((name, Some p, None), h_busy, w_epoch) ∧
             profCache h_busy !! name = Some p) ∧
  (profCache (set_profCache ∅ h_busy) = ∅ ∧ inProfiling (set_profCache ∅ h_busy) = true ∧
   tryGetProfile "" (set_profCache ∅ h_busy) w_epoch
   = (failed "already in profiling", set_profCache ∅ h_busy, w_epoch)).
Proof.
  assert (profCache h_busy ≠ ∅) as Hne by (simpl; apply insert_non_empty).
  split.
  - split; [exact Hne|]. exact (proj1 (tryGetProfile_from_cache "" h_busy w_epoch) Hne).
  - split; [reflexivity|]. split; [reflexivity|].
    exact (proj2 (tryGetProfile_from_cache "" (set_profCache ∅ h_busy) w_epoch)
             eq_refl eq_refl).
Defined.

(** ** Clearing *)

(** X6. [clearprof] with a name removes the entry of that name and leaves
    every other entry; without a name it empties the cache.  Either way it
    answers with the redirect and leaves the flag alone. *)
Theorem clearprof_evicts u h :
  (clearprof u h).1 = [Redirect] ∧
  inProfiling (clearprof u h).2 = inProfiling h ∧
  (getProfileNameFromQuery u ≠ "" →
     ∀ k, profCache (clearprof u h).2 !! k
          = if decide (getProfileNameFromQuery u = k) then None else profCache h !! k) ∧
  (getProfileNameFromQuery u = "" → profCache (clearprof u h).2 = ∅).
Proof.
  unfold clearprof.
  destruct (String.eqb_spec (getProfileNameFromQuery u) "") as [Hname|Hname].
  - repeat split; done.
  - repeat split; try done. intros _ k. simpl. apply lookup_delete.
Qed.

Lemma clearprof_evicts_witness :
  (getProfileNameFromQuery [("pn", "2024-10-31T08:14:20-5Seconds-cpu")] ≠ "" ∧
   profCache (clearprof [("pn", "2024-10-31T08:14:20-5Seconds-cpu")] h_three).2
     !! "2024-10-31T08:14:20-5Seconds-cpu" = None ∧
   profCache (clearprof [("pn", "2024-10-31T08:14:20-5Seconds-cpu")] h_three).2
     !! "2024-10-31T08:14:25-5Seconds-heap" = Some (ProfileAt 3)) ∧
  (getProfileNameFromQuery [] = "" ∧ profCache (clearprof [] h_three).2 = ∅).
Proof.
  assert (getProfileNameFromQuery [("pn", "2024-10-31T08:14:20-5Seconds-cpu")] ≠ "") as Hn
      by discriminate.
  pose proof (proj1 (proj2 (proj2
    (clearprof_evicts [("pn", "2024-10-31T08:14:20-5Seconds-cpu")] h_three))) Hn) as Hnamed.
  split.
  - split; [exact Hn|]. split.
    + exact (Hnamed "2024-10-31T08:14:20-5Seconds-cpu").
    + exact (Hnamed "2024-10-31T08:14:25-5Seconds-heap").
  - split; [reflexivity|].
    exact (proj2 (proj2 (proj2 (clearprof_evicts [] h_three))) eq_refl).
Defined.

(** X7. After the cache was cleared as a whole, the next view request
    starts a default capture, whatever profile it names.  After one entry
    was evicted, a view request that names it is answered with the most
    recent of the entries that are left. *)
Theorem clearprof_then_view u h w profname :
  (getProfileNameFromQuery u = "" →
     tryGetProfile profname (clearprof u h).2 w
     = createProfile ProfileTypeCPU defaultSamplePeriod (clearprof u h).2 w) ∧
  (getProfileNameFromQuery u ≠ "" →
   profCache (clearprof u h).2 ≠ ∅ →
     tryGetProfile (getProfileNameFromQuery u) (clearprof u h).2 w
     = ((latestProfile (clearprof u h).2).1, (latestProfile (clearprof u h).2).2, None,
        (clearprof u h).2, w) ∧
     (latestProfile (clearprof u h).2).1 ≠ getProfileNameFromQuery u).
Proof.
  split.
  - intros Hname. pose proof (clearprof_all u h Hname) as Hall.
    unfold tryGetProfile, getProfile.
    by rewrite Hall, lookup_empty, (latestProfile_empty _ Hall).
  - intros Hname Hne.
    pose proof (clearprof_named u h (getProfileNameFromQuery u) Hname) as Hgone.
    rewrite decide_True in Hgone by done.
    destruct (latestProfile_nonempty _ Hne) as (name & p & Hl & Hp & _).
    unfold tryGetProfile, getProfile. rewrite Hgone, Hl. simpl.
    split; [done|]. intros ->. by rewrite Hgone in Hp.
Qed.

Lemma clearprof_then_view_witness :
  (getProfileNameFromQuery [] = "" ∧
   tryGetProfile "2024-10-31T08:14:20-5Seconds-cpu" (clearprof [] h_three).2 w_epoch
   = createProfile ProfileTypeCPU defaultSamplePeriod (clearprof [] h_three).2 w_epoch) ∧
  (getProfileNameFromQuery [("pn", "2024-10-31T08:14:25-5Seconds-heap")] ≠ "" ∧
   profCache (clearprof [("pn", "2024-10-31T08:14:25-5Seconds-heap")] h_three).2 ≠ ∅ ∧
   (tryGetProfile "2024-10-31T08:14:25-5Seconds-heap"
      (clearprof [("pn", "2024-10-31T08:14:25-5Seconds-heap")] h_three).2 w_epoch).1.1
   = ("2024-10-31T08:14:20-5Seconds-cpu", Some (ProfileAt 2), None)).
Proof.
  split.
  - split; [reflexivity|].
    exact (proj1 (clearprof_then_view [] h_three w_epoch _) eq_refl).
  - assert (getProfileNameFromQuery [("pn", "2024-10-31T08:14:25-5Seconds-heap")] ≠ "")
      as Hn by discriminate.
    assert (profCache (clearprof [("pn", "2024-10-31T08:14:25-5Seconds-heap")] h_three).2
            ≠ ∅) as Hne.
    { intros Hempty.
      assert (profCache (clearprof [("pn", "2024-10-31T08:14:25-5Seconds-heap")] h_three).2
                !! "2024-10-31T08:14:20-5Seconds-cpu" = Some (ProfileAt 2)) as Hl
          by (vm_compute; reflexivity).
      by rewrite Hempty in Hl. }
    split; [exact Hn|]. split; [exact Hne|].
    pose proof (proj1 (proj2 (clearprof_then_view
      [("pn", "2024-10-31T08:14:25-5Seconds-heap")] h_three w_epoch "") Hn Hne)) as Hview.
    change (getProfileNameFromQuery [("pn", "2024-10-31T08:14:25-5Seconds-heap")])
      with "2024-10-31T08:14:25-5Seconds-heap" in Hview.
    rewrite Hview. vm_compute. reflexivity.
Defined.

(** ** The answer of [genprof] *)

(** X8. [genprof] runs the capture the query asks for and always ends its
    answer with the redirect.  After a capture that failed it has written
    the same error before, status 500, whatever the cause was; after a
    capture that succeeded the redirect is all it writes. *)
Theorem genprof_response (ParseDuration : string → string + time.Duration)
    (u : url.Values) (h : webHandler) (w : World) :
  (genprof ParseDuration u h w).1.2
  = (createProfile (getProfileTypeFromQuery u)
       (getSamplePerioidFromQuery ParseDuration u) h w).1.2 ∧
  last (genprof ParseDuration u h w).1.1 = Some Redirect ∧
  ((createProfile (getProfileTypeFromQuery u)
      (getSamplePerioidFromQuery ParseDuration u) h w).1.1.2 = None →
     (genprof ParseDuration u h w).1.1 = [Redirect]) ∧
  (∀ err, (createProfile (getProfileTypeFromQuery u)
             (getSamplePerioidFromQuery ParseDuration u) h w).1.1.2 = Some err →
     (genprof ParseDuration u h w).1.1
     = [HttpError "fail to create a profile" 500; Redirect]).
Proof.
  unfold genprof.
  destruct (createProfile _ _ h w) as [[[[name p] [err|]] h'] w']; simpl;
    repeat split; try done.
Qed.

Lemma genprof_response_witness :
  (createProfile (getProfileTypeFromQuery [("pt", "heap")])
     (getSamplePerioidFromQuery parseSeconds [("pt", "heap")]) h_fresh w_epoch).1.1.2 = None ∧
  (genprof parseSeconds [("pt", "heap")] h_fresh w_epoch).1.1 = [Redirect] ∧
  (createProfile (getProfileTypeFromQuery [("pt", "heap")])
     (getSamplePerioidFromQuery parseSeconds [("pt", "heap")]) h_busy w_epoch).1.1.2
  = Some "already in profiling" ∧
  (genprof parseSeconds [("pt", "heap")] h_busy w_epoch).1.1
  = [HttpError "fail to create a profile" 500; Redirect].
Proof.
  split; [reflexivity|]. split.
  - exact (proj1 (proj2 (proj2 (genprof_response parseSeconds [("pt", "heap")]
                                  h_fresh w_epoch))) eq_refl).
  - split; [reflexivity|].
    exact (proj2 (proj2 (proj2 (genprof_response parseSeconds [("pt", "heap")]
                                  h_busy w_epoch))) _ eq_refl).
Defined.

(** ** How long a request sleeps *)

Lemma sample_clock profType d w :
  clock w ≤ clock (sample profType d w).2 ≤ clock w + Z.max 0 d.
Proof.
  unfold sample, time_Now, capture, pprof_StartCPUProfile, pprof_WriteHeapProfile.
  destruct (String.eqb profType ProfileTypeCPU).
  - simpl. destruct (startCPU w); simpl; lia.
  - destruct (String.eqb profType ProfileTypeHeap).
    + simpl. destruct (writeHeap w); simpl; lia.
    + simpl. lia.
Qed.

Lemma createProfile_clock profType d h w :
  clock w ≤ clock (createProfile profType d h w).2 ≤ clock w + Z.max 0 d.
Proof.
  unfold createProfile. destruct (inProfiling h); [simpl; lia|].
  pose proof (sample_clock profType d w) as Hs.
  by destruct (sample profType d w) as [[name [err|p]] w'].
Qed.

Lemma period_at_most_max (ParseDuration : string → string + time.Duration) u :
  getSamplePerioidFromQuery ParseDuration u ≤ maxSamplePeriod.
Proof.
  unfold getSamplePerioidFromQuery.
  destruct (String.eqb _ ""); [by vm_compute|].
  destruct (ParseDuration _) as [err|d]; [by vm_compute|].
  destruct (60 * time.Second <? d) eqn:Hd; [done|]. unfold maxSamplePeriod. lia.
Qed.

(** X9. The period a capture request ends up with is never more than sixty
    seconds, whatever the query says and however the parser reads it, so the
    request sleeps sixty seconds at most; a view request sleeps five seconds
    at most.  There is no bound below: a negative period is passed on as it
    is and makes the capture sleep not at all. *)
Theorem requests_sleep_bounded (ParseDuration : string → string + time.Duration)
    (u : url.Values) (profname : string) (h : webHandler) (w : World) :
  getSamplePerioidFromQuery ParseDuration u ≤ 60 * time.Second ∧
  clock w ≤ clock (genprof ParseDuration u h w).2 ≤ clock w + 60 * time.Second ∧
  clock w ≤ clock (tryGetProfile profname h w).2 ≤ clock w + 5 * time.Second ∧
  (∀ d, url.Get u "sd" ≠ "" → ParseDuration (url.Get u "sd") = inr d → d ≤ 0 →
     getSamplePerioidFromQuery ParseDuration u = d ∧
     clock (genprof ParseDuration u h w).2 = clock w).
Proof.
  pose proof (period_at_most_max ParseDuration u) as Hmax.
  assert (clock (genprof ParseDuration u h w).2
          = clock (createProfile (getProfileTypeFromQuery u)
                     (getSamplePerioidFromQuery ParseDuration u) h w).2) as Hgen.
  { unfold genprof. by destruct (createProfile _ _ h w) as [[[[name p] err] h'] w']. }
  pose proof (createProfile_clock (getProfileTypeFromQuery u)
                (getSamplePerioidFromQuery ParseDuration u) h w) as Hclock.
  unfold maxSamplePeriod in Hmax.
  split; [done|]. unfold time.Second in *. split; [rewrite Hgen; lia|]. split.
  - unfold tryGetProfile. destruct (getProfile h profname); [simpl; lia|].
    destruct (latestProfile h) as [name [p|]]; [simpl; lia|].
    pose proof (createProfile_clock ProfileTypeCPU defaultSamplePeriod h w) as Hc.
    unfold defaultSamplePeriod, time.Second in *. lia.
  - intros d Hs Hparse Hd.
    assert (getSamplePerioidFromQuery ParseDuration u = d) as Hperiod.
    { unfold getSamplePerioidFromQuery.
      destruct (String.eqb_spec (url.Get u "sd") "") as [?|_]; [done|].
      rewrite Hparse. unfold time.Second.
      assert ((60 * 1000000000 <? d) = false) as ->; [lia|done]. }
    split; [done|]. rewrite Hgen. rewrite Hperiod in Hclock |- *. lia.
Qed.

(** ** The names of the cache *)

Lemma strictly_sorted (l : list string) :
  StronglySorted name_ge l → NoDup l →
  StronglySorted (λ a b, String.le b a ∧ a ≠ b) l.
Proof.
  induction 1 as [|a l Hs IH Hall]; intros Hnd; [constructor|].
  apply NoDup_cons in Hnd as [Ha Hnd]. constructor; [by apply IH|].
  rewrite Forall_forall in Hall. apply Forall_forall. intros b Hb.
  split; [by apply Hall|]. by intros ->.
Qed.

(** X10. [profileNames] lists every name of the cache once, each name
    strictly before all smaller ones, and nothing else; it is as long as the
    cache is large. *)
Theorem profileNames_sorted_keys h :
  StronglySorted (λ a b, String.le b a ∧ a ≠ b) (profileNames h) ∧
  NoDup (profileNames h) ∧
  (∀ k, k ∈ profileNames h ↔ is_Some (profCache h !! k)) ∧
  length (profileNames h) = size (profCache h).
Proof.
  assert (NoDup (profileNames h)) as Hnd.
  { rewrite profileNames_perm. apply NoDup_fst_map_to_list. }
  split; [|split; [done|split]].
  - apply strictly_sorted; [apply profileNames_sorted|done].
  - apply elem_of_profileNames.
  - rewrite profileNames_perm, length_fmap. apply length_map_to_list.
Qed.

Lemma requests_sleep_bounded_witness :
  url.Get [("sd", "-5s")] "sd" ≠ "" ∧
  - 5 * time.Second ≤ 0 ∧
  getSamplePerioidFromQuery (λ _, inr (- 5 * time.Second)) [("sd", "-5s")]
  = - 5 * time.Second ∧
  clock (genprof (λ _, inr (- 5 * time.Second)) [("sd", "-5s")] h_fresh w_epoch).2
  = clock w_epoch.
Proof.
  assert (url.Get [("sd", "-5s")] "sd" ≠ "") as Hs by discriminate.
  assert (- 5 * time.Second ≤ 0) as Hd by (vm_compute; discriminate).
  split; [exact Hs|]. split; [exact Hd|].
  exact (proj2 (proj2 (proj2 (requests_sleep_bounded (λ _, inr (- 5 * time.Second))
                                [("sd", "-5s")] "" h_fresh w_epoch)))
           (- 5 * time.Second) Hs eq_refl Hd).
Defined.

(** ** Goroutines under any schedule *)

Lemma sched_inv i s s' :
  sched i s = Some s' →
  ∃ g l, gos s !! i = Some g ∧
         step (go_type g) (go_period g) (go_pc g) (handler s) (world s)
         = Some (l, handler s', world s') ∧
         gos s' = <[i := mkGo (go_type g) (go_period g) l]> (gos s).
Proof.
  unfold sched. intros Hs.
  destruct (gos s !! i) as [g|] eqn:Hg; [|done]. simpl in Hs.
  destruct (step _ _ _ _ _) as [[[l h] w]|] eqn:Hstep; [|done].
  simpl in Hs. simplify_eq. exists g, l. by rewrite Hstep.
Qed.

(** What one statement does to the mutex and to the goroutine's hold on
    it. *)
Lemma step_mutex ty d l h w l' h' w' :
  step ty d l h w = Some (l', h', w') →
  (holds_mutex l = false ∧ holds_mutex l' = true ∧ mtx h = false ∧ mtx h' = true) ∨
  (holds_mutex l = true ∧ holds_mutex l' = true ∧ mtx h' = mtx h) ∨
  (holds_mutex l = true ∧ holds_mutex l' = false ∧ mtx h' = false) ∨
  (holds_mutex l = false ∧ holds_mutex l' = false ∧ mtx h' = mtx h).
Proof.
  destruct h as [cache flag m]. destruct l; simpl; intros Hstep;
    repeat case_match; simplify_eq/=; tauto.
Qed.

Lemma filter_insert_length {A} (P : A → Prop) `{!∀ x, Decision (P x)}
    (l : list A) i x y :
  l !! i = Some x →
  (length (filter P (<[i := y]> l)) + (if decide (P x) then 1 else 0)
   = length (filter P l) + (if decide (P y) then 1 else 0))%nat.
Proof.
  revert i. induction l as [|z l IH]; intros [|i] Hi; simplify_eq/=.
  - rewrite !filter_cons. destruct (decide (P x)), (decide (P y)); simpl; lia.
  - rewrite !filter_cons. specialize (IH i Hi).
    destruct (decide (P z)); simpl; lia.
Qed.

Lemma sched_holders i s s' :
  sched i s = Some s' →
  length (filter (λ g, holds_mutex (go_pc g) = true) (gos s))
  = (if mtx (handler s) then 1 else 0)%nat →
  length (filter (λ g, holds_mutex (go_pc g) = true) (gos s'))
  = (if mtx (handler s') then 1 else 0)%nat.
Proof.
  intros (g & l & Hg & Hstep & ->)%sched_inv Hinv.
  pose proof (filter_insert_length (λ g, holds_mutex (go_pc g) = true) (gos s) i g
                (mkGo (go_type g) (go_period g) l) Hg) as Hcount.
  simpl in Hcount.
  destruct (step_mutex _ _ _ _ _ _ _ _ Hstep)
    as [(H1 & H2 & H3 & H4)|[(H1 & H2 & H3)|[(H1 & H2 & H3)|(H1 & H2 & H3)]]];
    rewrite H1, H2 in Hcount; repeat case_decide; try done;
    destruct (mtx (handler s)), (mtx (handler s')); simplify_eq; lia.
Qed.

Lemma run_holders schedule s s' :
  run schedule s = Some s' →
  length (filter (λ g, holds_mutex (go_pc g) = true) (gos s))
  = (if mtx (handler s) then 1 else 0)%nat →
  length (filter (λ g, holds_mutex (go_pc g) = true) (gos s'))
  = (if mtx (handler s') then 1 else 0)%nat.
Proof.
  revert s. induction schedule as [|i rest IH]; intros s Hrun Hinv; simpl in Hrun.
  - by simplify_eq.
  - destruct (sched i s) as [s1|] eqn:Hs; [|done]. simpl in Hrun.
    eapply IH; [done|]. by eapply sched_holders.
Qed.

Lemma arrivals_holders reqs h w :
  filter (λ g, holds_mutex (go_pc g) = true) (gos (arrivals reqs h w)) = [].
Proof.
  unfold arrivals. simpl. induction reqs as [|r reqs IH]; [done|].
  rewrite fmap_cons, filter_cons. simpl. exact IH.
Qed.

(** X13. Whatever the requests and however their goroutines are scheduled,
    at most one goroutine is between a [Lock] and its [Unlock], and one is
    exactly when the mutex is held.  Reading the flag and writing the cache
    happen only there, so no two goroutines write the cache at once. *)
Theorem mutex_excludes reqs h w schedule s :
  mtx h = false →
  run schedule (arrivals reqs h w) = Some s →
  length (filter (λ g, holds_mutex (go_pc g) = true) (gos s))
  = (if mtx (handler s) then 1 else 0)%nat ∧
  (length (filter (λ g, holds_mutex (go_pc g) = true) (gos s)) ≤ 1)%nat.
Proof.
  intros Hfree Hrun.
  assert (length (filter (λ g, holds_mutex (go_pc g) = true) (gos s))
          = (if mtx (handler s) then 1 else 0)%nat) as Hinv.
  { eapply run_holders; [done|]. rewrite arrivals_holders. simpl. by rewrite Hfree. }
  split; [done|]. rewrite Hinv. destruct (mtx (handler s)); lia.
Qed.

Lemma mutex_excludes_witness :
  mtx h_fresh = false ∧
  (∃ s, run racy_schedule
          (arrivals [("cpu", 5 * time.Second); ("heap", 5 * time.Second)] h_fresh w_epoch)
        = Some s ∧
        (length (filter (λ g, holds_mutex (go_pc g) = true) (gos s)) ≤ 1)%nat).
Proof.
  split; [reflexivity|].
  destruct (run racy_schedule
              (arrivals [("cpu", 5 * time.Second); ("heap", 5 * time.Second)]
                 h_fresh w_epoch)) as [s|] eqn:Hrun; [|by vm_compute in Hrun].
  exists s. split; [reflexivity|].
  exact (proj2 (mutex_excludes _ h_fresh w_epoch racy_schedule s eq_refl Hrun)).
Defined.

(** What one statement does to the flag and to the goroutine's capture. *)
Lemma step_flag ty d l h w l' h' w' :
  step ty d l h w = Some (l', h', w') →
  (in_capture l = true → in_capture l' = true ∨ inProfiling h' = false) ∧
  (inProfiling h' = true → in_capture l' = true ∨
                            (inProfiling h = true ∧ in_capture l = false)).
Proof.
  destruct h as [cache flag m]. destruct l; simpl; intros Hstep;
    repeat case_match; simplify_eq/=; split; intros; try done; auto.
Qed.

Lemma sched_flag i s s' :
  sched i s = Some s' →
  (inProfiling (handler s) = true →
     ∃ j g, gos s !! j = Some g ∧ in_capture (go_pc g) = true) →
  (inProfiling (handler s') = true →
     ∃ j g, gos s' !! j = Some g ∧ in_capture (go_pc g) = true).
Proof.
  intros (g & l & Hg & Hstep & Hgos)%sched_inv Hinv Hflag.
  destruct (step_flag _ _ _ _ _ _ _ _ Hstep) as [Hstay Hset].
  assert (i < length (gos s))%nat as Hi by (by eapply lookup_lt_Some).
  destruct (Hset Hflag) as [Hin|[Hold Hout]].
  - exists i, (mkGo (go_type g) (go_period g) l). split; [|done].
    rewrite Hgos. by apply list_lookup_insert_eq.
  - destruct (Hinv Hold) as (j & gj & Hj & Hcap).
    destruct (decide (j = i)) as [->|Hne]; [by simplify_eq; congruence|].
    exists j, gj. split; [|done]. rewrite Hgos. by rewrite list_lookup_insert_ne.
Qed.

Lemma run_flag schedule s s' :
  run schedule s = Some s' →
  (inProfiling (handler s) = true →
     ∃ j g, gos s !! j = Some g ∧ in_capture (go_pc g) = true) →
  (inProfiling (handler s') = true →
     ∃ j g, gos s' !! j = Some g ∧ in_capture (go_pc g) = true).
Proof.
  revert s. induction schedule as [|i rest IH]; intros s Hrun Hinv; simpl in Hrun.
  - by simplify_eq.
  - destruct (sched i s) as [s1|] eqn:Hs; [|done]. simpl in Hrun.
    eapply IH; [done|]. by eapply sched_flag.
Qed.

(** X14. However the goroutines of any number of capture requests are
    scheduled on a handler that was idle, once all of them have returned the
    flag is cleared and the mutex is free.  As long as the flag is set, some
    goroutine is still inside its capture. *)
Theorem flag_never_stuck reqs h w schedule s :
  idle h →
  run schedule (arrivals reqs h w) = Some s →
  (inProfiling (handler s) = true →
     ∃ j g, gos s !! j = Some g ∧ in_capture (go_pc g) = true) ∧
  (Forall (λ g, has_returned (go_pc g) = true) (gos s) →
     inProfiling (handler s) = false ∧ mtx (handler s) = false).
Proof.
  intros [Hflag Hmtx] Hrun.
  assert (inProfiling (handler s) = true →
          ∃ j g, gos s !! j = Some g ∧ in_capture (go_pc g) = true) as Hinv.
  { eapply run_flag; [done|]. simpl. by rewrite Hflag. }
  split; [done|]. intros Hall. rewrite Forall_forall in Hall. split.
  - destruct (inProfiling (handler s)) eqn:Hf; [|done].
    destruct (Hinv eq_refl) as (j & g & Hj & Hcap).
    apply list_elem_of_lookup_2, Hall in Hj. by destruct (go_pc g).
  - pose proof (run_holders _ _ _ Hrun) as Hcount.
    rewrite arrivals_holders in Hcount. simpl in Hcount. rewrite Hmtx in Hcount.
    specialize (Hcount eq_refl).
    destruct (mtx (handler s)); [|done].
    destruct (filter _ (gos s)) as [|g gs] eqn:Hfilter; [done|].
    assert (g ∈ filter (λ g, holds_mutex (go_pc g) = true) (gos s)) as Hg
        by (rewrite Hfilter; left).
    apply list_elem_of_filter in Hg as [Hholds Hg]. apply Hall in Hg.
    by destruct (go_pc g).
Qed.

Lemma flag_never_stuck_witness :
  idle h_fresh ∧
  ∃ s, run (racy_schedule ++ [0; 0; 0; 0; 0; 1; 1; 1; 1; 1])%nat
         (arrivals [("cpu", 5 * time.Second); ("heap", 5 * time.Second)] h_fresh w_epoch)
       = Some s ∧
       Forall (λ g, has_returned (go_pc g) = true) (gos s) ∧
       inProfiling (handler s) = false ∧ mtx (handler s) = false.
Proof.
  assert (idle h_fresh) as Hidle by (split; reflexivity).
  split; [exact Hidle|].
  destruct (run (racy_schedule ++ [0; 0; 0; 0; 0; 1; 1; 1; 1; 1])%nat
              (arrivals [("cpu", 5 * time.Second); ("heap", 5 * time.Second)]
                 h_fresh w_epoch)) as [s|] eqn:Hrun; [|by vm_compute in Hrun].
  exists s. split; [reflexivity|].
  assert (Forall (λ g, has_returned (go_pc g) = true) (gos s)) as Hall.
  { vm_compute in Hrun. injection Hrun as <-. repeat constructor. }
  split; [exact Hall|].
  exact (proj2 (flag_never_stuck _ h_fresh w_epoch _ s Hidle Hrun) Hall).
Defined.

(** ** Progress *)

Lemma step_enabled ty d l h w :
  has_returned l = false → mtx h = false ∨ holds_mutex l = true →
  is_Some (step ty d l h w).
Proof.
  destruct h as [cache flag m]. destruct l; simpl; intros Hl [Hm|Hm];
    simplify_eq/=; repeat case_match; eauto.
Qed.

(** X15. The goroutines of capture requests never block each other for
    good: whatever has happened so far, as long as one of them has not
    returned, one of them can run its next statement. *)
Theorem createProfile_no_deadlock reqs h w schedule s j g :
  mtx h = false →
  run schedule (arrivals reqs h w) = Some s →
  gos s !! j = Some g → has_returned (go_pc g) = false →
  ∃ i s', sched i s = Some s'.
Proof.
  intros Hfree Hrun Hj Hgo.
  assert (∀ i gi, gos s !! i = Some gi → has_returned (go_pc gi) = false →
            mtx (handler s) = false ∨ holds_mutex (go_pc gi) = true →
            ∃ s', sched i s = Some s') as Hmove.
  { intros i gi Hi Hnot Hcan. unfold sched. rewrite Hi. simpl.
    destruct (step_enabled (go_type gi) (go_period gi) (go_pc gi) (handler s) (world s)
                Hnot Hcan) as [[[l' h'] w'] ->].
    simpl. eauto. }
  destruct (mtx (handler s)) eqn:Hm.
  - pose proof (run_holders _ _ _ Hrun) as Hcount.
    rewrite arrivals_holders in Hcount. simpl in Hcount. rewrite Hfree, Hm in Hcount.
    specialize (Hcount eq_refl).
    destruct (filter _ (gos s)) as [|gk gs] eqn:Hfilter; [done|].
    assert (gk ∈ filter (λ g, holds_mutex (go_pc g) = true) (gos s)) as Hgk
        by (rewrite Hfilter; left).
    apply list_elem_of_filter in Hgk as [Hholds Hgk].
    apply list_elem_of_lookup in Hgk as [k Hk].
    exists k. apply (Hmove k gk Hk); [by destruct (go_pc gk)|by right].
  - exists j. apply (Hmove j g Hj Hgo). by left.
Qed.

Lemma createProfile_no_deadlock_witness :
  mtx h_fresh = false ∧
  ∃ s g, run [0; 1; 1]%nat
           (arrivals [("cpu", 5 * time.Second); ("heap", 5 * time.Second)] h_fresh w_epoch)
         = None ∧
         run [0]%nat
           (arrivals [("cpu", 5 * time.Second); ("heap", 5 * time.Second)] h_fresh w_epoch)
         = Some s ∧
         gos s !! 1%nat = Some g ∧ has_returned (go_pc g) = false ∧
         ∃ i s', sched i s = Some s'.
Proof.
  split; [reflexivity|].
  destruct (run [0]%nat
              (arrivals [("cpu", 5 * time.Second); ("heap", 5 * time.Second)]
                 h_fresh w_epoch)) as [s|] eqn:Hrun; [|by vm_compute in Hrun].
  destruct (gos s !! 1%nat) as [g|] eqn:Hg;
    [|by vm_compute in Hrun; injection Hrun as <-].
  assert (has_returned (go_pc g) = false) as Hnot.
  { vm_compute in Hrun. injection Hrun as <-. vm_compute in Hg. by injection Hg as <-. }
  exists s, g. split; [reflexivity|]. split; [reflexivity|].
  split; [exact Hg|]. split; [exact Hnot|].
  exact (createProfile_no_deadlock _ h_fresh w_epoch [0%nat] s 1 g eq_refl Hrun Hg Hnot).
Defined.

(** ** The cache under any schedule *)

Lemma step_cache ty d l h w l' h' w' k :
  step ty d l h w = Some (l', h', w') →
  is_Some (profCache h !! k) → is_Some (profCache h' !! k).
Proof.
  destruct h as [cache flag m]. destruct l; simpl; intros Hstep Hk;
    repeat case_match; simplify_eq/=; try done.
  destruct (decide (profName = k)) as [->|Hne].
  - rewrite lookup_insert_eq. eauto.
  - by rewrite lookup_insert_ne.
Qed.

(** X16. Captures only add to the cache: whatever goroutines run in whatever
    order, a name that is in the cache stays in the cache. *)
Theorem createProfile_never_evicts schedule s s' k :
  run schedule s = Some s' →
  is_Some (profCache (handler s) !! k) → is_Some (profCache (handler s') !! k).
Proof.
  revert s. induction schedule as [|i rest IH]; intros s Hrun Hk; simpl in Hrun.
  - by simplify_eq.
  - destruct (sched i s) as [s1|] eqn:Hs; [|done]. simpl in Hrun.
    apply (IH s1 Hrun).
    apply sched_inv in Hs as (g & l & Hg & Hstep & _).
    by eapply step_cache.
Qed.

Lemma createProfile_never_evicts_witness :
  ∃ s', run [0; 0; 0; 0; 0; 0; 0; 0; 0]%nat
          (one_request h_three w_epoch "cpu" (5 * time.Second)) = Some s' ∧
        is_Some (profCache h_three !! "2024-10-31T08:14:15-5Seconds-cpu") ∧
        is_Some (profCache (handler s') !! "2024-10-31T08:14:15-5Seconds-cpu").
Proof.
  destruct (run [0; 0; 0; 0; 0; 0; 0; 0; 0]%nat
              (one_request h_three w_epoch "cpu" (5 * time.Second)))
    as [s'|] eqn:Hrun; [|by vm_compute in Hrun].
  exists s'. split; [reflexivity|].
  assert (is_Some (profCache h_three !! "2024-10-31T08:14:15-5Seconds-cpu")) as Hk
      by (eexists; reflexivity).
  split; [exact Hk|].
  exact (createProfile_never_evicts _ _ s' _ Hrun Hk).
Defined.

Lemma run_alone_witness :
  mtx h_fresh = false ∧
  ∃ n, (n ≤ 9)%nat ∧
    run (replicate n 0%nat) (one_request h_fresh w_garbled "cpu" (5 * time.Second))
    = Some (mkSys [mkGo "cpu" (5 * time.Second)
                     (Returned (createProfile "cpu" (5 * time.Second) h_fresh w_garbled).1.1)]
                  (createProfile "cpu" (5 * time.Second) h_fresh w_garbled).1.2
                  (createProfile "cpu" (5 * time.Second) h_fresh w_garbled).2).
Proof.
  split; [reflexivity|].
  exact (run_alone "cpu" (5 * time.Second) h_fresh w_garbled eq_refl).
Defined.

Lemma second_request_rejected_witness :
  idle h_fresh ∧
  ∃ n, (n ≤ 5)%nat ∧
    run ([0; 0; 0; 0; 1; 1; 1] ++ replicate n 0)%nat
      (two_requests h_fresh w_epoch "cpu" (5 * time.Second) "heap" (5 * time.Second))
    = Some (mkSys [mkGo "cpu" (5 * time.Second)
                     (Returned (createProfile "cpu" (5 * time.Second) h_fresh w_epoch).1.1);
                   mkGo "heap" (5 * time.Second)
                     (Returned (failed "already in profiling"))]
                  (createProfile "cpu" (5 * time.Second) h_fresh w_epoch).1.2
                  (createProfile "cpu" (5 * time.Second) h_fresh w_epoch).2) ∧
    inProfiling (createProfile "cpu" (5 * time.Second) h_fresh w_epoch).1.2 = false.
Proof.
  assert (idle h_fresh) as Hidle by (split; reflexivity).
  split; [exact Hidle|].
  exact (second_request_rejected h_fresh w_epoch _ _ _ _ Hidle).
Defined.

(** ** The children of the synthetic root *)

Lemma root_positions_snoc g n :
  root_positions (g ++ [n])
  = root_positions g ++ (if is_root n then [length g] else []).
Proof.
  unfold root_positions. rewrite imap_app, filter_app, fmap_app. f_equal.
  simpl. rewrite filter_cons, filter_nil. simpl.
  destruct (is_root n); simpl; [|done]. by rewrite Nat.add_0_r.
Qed.

Lemma root_positions_lt g k : k ∈ root_positions g → (k < length g)%nat.
Proof.
  induction g as [|n g IH] using rev_ind; [by intros ?%elem_of_nil|].
  rewrite root_positions_snoc, length_app. simpl.
  intros [Hk|Hk]%elem_of_app; [specialize (IH Hk); lia|].
  destruct (is_root n); [|by apply elem_of_nil in Hk].
  apply list_elem_of_singleton in Hk. lia.
Qed.

(** The swaps keep the roots in the order in which the loop met them. *)
Lemma collect_root_positions cfg g :
  take (nroots (fold_left (collect cfg) g build0))
       (nodes (fold_left (collect cfg) g build0))
  = root_positions g.
Proof.
  induction g as [|n g IH] using rev_ind; [done|].
  pose proof (collect_nroots_le cfg g) as Hle.
  rewrite collect_snoc, root_positions_snoc.
  set (b := fold_left (collect cfg) g build0) in *.
  assert (length (heap b) = length g) as Hheap.
  { unfold b. by rewrite collect_heap, length_fmap. }
  simpl. rewrite Hheap, is_root_length.
  destruct (is_root n).
  - rewrite swap_last by lia.
    rewrite (cons_middle (length g)), app_assoc.
    rewrite take_app_length' by (rewrite length_app, length_take; simpl; lia).
    by rewrite IH.
  - rewrite take_app_le by lia. by rewrite IH, app_nil_r.
Qed.

(** X17. The children of the synthetic root are the nodes without incoming
    edge, each once, in the order in which they stand in the graph's slice:
    the swap to the front does not reorder roots. *)
Theorem flamegraph_roots_in_order cfg g :
  Children (rootNode (flamegraph cfg g)) = Some <$> root_positions g ∧
  StronglySorted lt (root_positions g) ∧
  (∀ k, k ∈ root_positions g ↔ root_at g k).
Proof.
  split; [|split].
  - unfold flamegraph. simpl. by rewrite collect_root_positions.
  - induction g as [|n g IH] using rev_ind; [constructor|].
    rewrite root_positions_snoc.
    assert (Forall (λ k, k < length g)%nat (root_positions g)) as Hlt.
    { apply Forall_forall. apply root_positions_lt. }
    destruct (is_root n); [|by rewrite app_nil_r].
    clear -IH Hlt. induction IH as [|k ks Hs IH' Hall]; simpl.
    + repeat constructor.
    + apply Forall_cons in Hlt as [Hk Hlt]. constructor; [by apply IH'|].
      apply Forall_app. split; [done|]. by repeat constructor.
  - intros k. rewrite <- (collect_root_positions cfg). apply collect_roots.
Qed.

(** ** The value of the root and the values below it *)

Lemma omap_ext_in {A B} (f h : A → option B) (l : list A) :
  (∀ x, x ∈ l → f x = h x) → omap f l = omap h l.
Proof.
  induction l as [|x l IH]; intros Heq; [done|].
  assert (omap f l = omap h l) as IH'.
  { apply IH. intros y Hy. apply Heq. by right. }
  change (omap f (x :: l)) with (from_option (λ y, y :: omap f l) (omap f l) (f x)).
  change (omap h (x :: l)) with (from_option (λ y, y :: omap h l) (omap h l) (h x)).
  by rewrite (Heq x), IH' by left.
Qed.

Lemma omap_fmap_in {A B C} (f : B → option C) (g : A → B) (h : A → option C)
    (l : list A) :
  (∀ x, x ∈ l → f (g x) = h x) → omap f (g <$> l) = omap h l.
Proof.
  induction l as [|x l IH]; intros Heq; [done|].
  assert (omap f (g <$> l) = omap h l) as IH'.
  { apply IH. intros y Hy. apply Heq. by right. }
  rewrite fmap_cons.
  change (omap f (g x :: (g <$> l)))
    with (from_option (λ y, y :: omap f (g <$> l)) (omap f (g <$> l)) (f (g x))).
  change (omap h (x :: l)) with (from_option (λ y, y :: omap h l) (omap h l) (h x)).
  by rewrite (Heq x), IH' by left.
Qed.

Lemma root_positions_values g :
  omap (λ k, graph.CumValue <$> g !! k) (root_positions g)
  = graph.CumValue <$> filter (λ n, is_root n = true) g.
Proof.
  induction g as [|n g IH] using rev_ind; [done|].
  rewrite root_positions_snoc, omap_app, filter_app, fmap_app. f_equal.
  - rewrite <- IH. apply omap_ext_in. intros k Hk.
    by rewrite lookup_app_l by (by apply root_positions_lt).
  - rewrite filter_cons, filter_nil. destruct (is_root n) eqn:Hroot; simpl; [|done].
    by rewrite list_lookup_middle.
Qed.

(** X18. The value of the synthetic root is the sum, as [int64] adds, of
    the values of the flame nodes it points to. *)
Theorem flamegraph_root_sums_children cfg g :
  child_values (flamegraph cfg g) (rootNode (flamegraph cfg g))
  = graph.CumValue <$> filter (λ n, is_root n = true) g ∧
  Cum (rootNode (flamegraph cfg g))
  = wrap64 (foldr Z.add 0
              (child_values (flamegraph cfg g) (rootNode (flamegraph cfg g)))).
Proof.
  assert (child_values (flamegraph cfg g) (rootNode (flamegraph cfg g))
          = graph.CumValue <$> filter (λ n, is_root n = true) g) as Hvals.
  { unfold child_values.
    replace (Children (rootNode (flamegraph cfg g))) with (Some <$> root_positions g)
      by (unfold flamegraph; simpl; by rewrite collect_root_positions).
    rewrite <- root_positions_values.
    apply omap_fmap_in. intros k _.
    change (Cum <$> store (flamegraph cfg g) !! k = graph.CumValue <$> g !! k).
    rewrite flamegraph_store_lookup. by destruct (g !! k). }
  split; [done|]. rewrite Hvals.
  unfold flamegraph. simpl. by rewrite collect_rootValue, root_sum64_wrap.
Qed.

(** ** Child pointers, edge by edge *)

Lemma nodeMap_position cfg g a :
  NoDup (graph.addr <$> g) →
  nodeMap (fold_left (collect cfg) g build0) !! a = position_of a g.
Proof.
  intros Hnd. unfold position_of.
  destruct (list_find (λ n, graph.addr n = a) g) as [[k n]|] eqn:Hfind; simpl.
  - apply list_find_Some in Hfind as (Hk & <- & _).
    by apply collect_nodeMap_complete.
  - apply list_find_None in Hfind. rewrite Forall_forall in Hfind.
    destruct (nodeMap _ !! a) as [k|] eqn:Hm; [|done].
    apply collect_nodeMap_sound in Hm as (n & Hn & Haddr).
    destruct (Hfind n); [by eapply list_elem_of_lookup_2|done].
Qed.

(** X19. When the nodes of the graph are distinct, the flame graph has one
    flame node per graph node, in the order of the slice, with the labels of
    that node; the names for the page are the nodes' names in the same
    order.  The children of a flame node are, key by key of the node's
    outgoing edges and in the order the map is walked, the flame node of the
    node at the other end, or [nil] when that node is not in the slice. *)
Theorem flamegraph_node_by_node cfg g :
  NoDup (graph.addr <$> g) →
  store (flamegraph cfg g)
  = (λ n, with_children ((λ a, position_of a g) <$> graph.Out n) (leaf cfg n)) <$> g ∧
  Nodes (flamegraph cfg g) = graph.Info_Name <$> g ∧
  (∀ k n a, g !! k = Some n → a ∈ graph.Out n → a ∉ (graph.addr <$> g) →
     ∃ t, store (flamegraph cfg g) !! k = Some t ∧ None ∈ Children t).
Proof.
  intros Hnd.
  assert (∀ k n, g !! k = Some n →
            store (flamegraph cfg g) !! k
            = Some (with_children ((λ a, position_of a g) <$> graph.Out n) (leaf cfg n)))
    as Hnode.
  { intros k n Hk. rewrite (flamegraph_store cfg g k n Hnd Hk). do 2 f_equal.
    apply list_fmap_ext. intros i a _. by apply nodeMap_position. }
  split; [|split].
  - apply list_eq. intros k. rewrite list_lookup_fmap.
    destruct (g !! k) as [n|] eqn:Hk; [by apply Hnode|].
    apply lookup_ge_None_2. rewrite flamegraph_store_length. by apply lookup_ge_None.
  - unfold flamegraph. simpl. apply collect_nodeArr.
  - intros k n a Hk Ha Hout. eexists. split; [by apply Hnode|]. simpl.
    apply list_elem_of_fmap. exists a. split; [|done].
    unfold position_of.
    destruct (list_find (λ n, graph.addr n = a) g) as [[j m]|] eqn:Hfind; [|done].
    apply list_find_Some in Hfind as (Hj & Haddr & _).
    destruct Hout. apply list_elem_of_fmap. exists m. split; [done|].
    by eapply list_elem_of_lookup_2.
Qed.

Lemma flamegraph_node_by_node_witness :
  NoDup (graph.addr <$> dangling) ∧
  Children <$> store (flamegraph plain_labels dangling) = [[Some 1%nat; None]; []] ∧
  (dangling !! 0%nat = Some (graph.mkNode 0 "main" "main" 10 [] [1; 9]%nat) ∧
   9%nat ∈ [1; 9]%nat ∧ (9%nat ∉ (graph.addr <$> dangling)) ∧
   ∃ t, store (flamegraph plain_labels dangling) !! 0%nat = Some t ∧ None ∈ Children t).
Proof.
  assert (NoDup (graph.addr <$> dangling)) as Hnd by compute_done.
  assert (9%nat ∈ [1; 9]%nat) as Hin by compute_done.
  assert (9%nat ∉ (graph.addr <$> dangling)) as Hout by compute_done.
  destruct (flamegraph_node_by_node plain_labels dangling Hnd) as (Hstore & _ & Hnil).
  split; [exact Hnd|]. split; [by rewrite Hstore|].
  split; [reflexivity|]. split; [exact Hin|]. split; [exact Hout|].
  exact (Hnil 0%nat _ 9%nat eq_refl Hin Hout).
Defined.

(** ** The option overrides of [makeReport] *)

Lemma pairs_ind (P : list string → Prop) :
  P [] → (∀ a, P [a]) → (∀ name x rest, P rest → P (name :: x :: rest)) →
  ∀ vars, P vars.
Proof.
  intros Hnil Hone Hstep vars.
  assert (P vars ∧ ∀ a, P (a :: vars)) as [H _]; [|done].
  induction vars as [|b vars [IH1 IH2]]; [by split|].
  split; [apply IH2|]. intros a. by apply Hstep.
Qed.

Lemma set_value_twice {Other : Type} x y (var : variable Other) :
  set_value y (set_value x var) = set_value y var.
Proof. done. Qed.

Lemma overrideVars_lookup {Other : Type} vars (v v' : gmap string (variable Other)) name :
  overrideVars vars v = Some v' →
  v' !! name = match last_override name vars with
               | Some x => set_value x <$> v !! name
               | None => v !! name
               end.
Proof.
  revert v. induction vars as [|a|k x rest IH] using pairs_ind; intros v Hrun.
  - by simplify_eq/=.
  - by simplify_eq/=.
  - simpl in Hrun. destruct (v !! k) as [var|] eqn:Hk; [|done].
    rewrite (IH _ Hrun). simpl.
    destruct (last_override name rest) as [y|].
    + destruct (decide (k = name)) as [->|Hne].
      * by rewrite lookup_insert_eq, Hk.
      * by rewrite lookup_insert_ne.
    + destruct (decide (k = name)) as [->|Hne].
      * by rewrite lookup_insert_eq, Hk.
      * by rewrite lookup_insert_ne.
Qed.

Lemma overrideVars_succeeds {Other : Type} vars (v : gmap string (variable Other)) :
  is_Some (overrideVars vars v)
  ↔ ∀ name, is_Some (last_override name vars) → is_Some (v !! name).
Proof.
  revert v. induction vars as [|a|k x rest IH] using pairs_ind; intros v.
  - simpl. split; [by intros _ name [? [=]]|eauto].
  - simpl. split; [by intros _ name [? [=]]|eauto].
  - simpl. split.
    + intros Hrun name Hname.
      destruct (v !! k) as [var|] eqn:Hk; [|by destruct Hrun].
      pose proof (proj1 (IH _) Hrun) as Hrest. clear Hrun. rename Hrest into Hrun.
      destruct (last_override name rest) as [y|] eqn:Hlast.
      * specialize (Hrun name). rewrite Hlast in Hrun.
        destruct (decide (k = name)) as [->|Hne]; [by eauto|].
        rewrite lookup_insert_ne in Hrun by done. apply Hrun. eauto.
      * destruct (decide (k = name)) as [->|Hne]; [by eauto|]. by destruct Hname.
    + intros Hall.
      destruct (Hall k) as [var Hk].
      { destruct (last_override k rest); [by eauto|]. rewrite decide_True by done. eauto. }
      rewrite Hk. apply (proj2 (IH _)). intros name Hname.
      destruct (decide (k = name)) as [->|Hne].
      * rewrite lookup_insert_eq. eauto.
      * rewrite lookup_insert_ne by done. apply Hall.
        destruct (last_override name rest); [by eauto|]. by destruct Hname.
Qed.

(** X20. The overrides of [makeReport] are taken two by two, a name and its
    value.  The loop gets through exactly when every name so given is a
    report variable; otherwise it stops on a [nil] variable.  When it gets
    through, each variable that was named holds the value of its last pair,
    with its other fields untouched, and every other variable is as the
    query left it.  A name at the end that has no value is ignored. *)
Theorem overrideVars_policy {Other : Type} (vars : list string)
    (v : gmap string (variable Other)) :
  (is_Some (overrideVars vars v)
   ↔ ∀ name, is_Some (last_override name vars) → is_Some (v !! name)) ∧
  (∀ v' name, overrideVars vars v = Some v' →
     v' !! name = match last_override name vars with
                  | Some x => set_value x <$> v !! name
                  | None => v !! name
                  end) ∧
  (∀ (prs : list (string * string)) (z : string),
     vars = (prs ≫= λ p, [p.1; p.2]) →
     overrideVars (vars ++ [z]) v = overrideVars vars v).
Proof.
  split; [apply overrideVars_succeeds|]. split.
  - intros v' name Hrun. by apply overrideVars_lookup.
  - intros prs z ->. revert v. induction prs as [|[k x] prs IH]; intros v; [done|].
    simpl. destruct (v !! k); [|done]. apply IH.
Qed.

Lemma overrideVars_policy_witness :
  (∃ v', overrideVars ["call_tree"; "true"; "call_tree"; "yes"; "trim"] default_vars
         = Some v' ∧
         v' !! "call_tree" = Some (mkVariable string "yes" "bool") ∧
         v' !! "trim" = Some (mkVariable string "true" "bool")) ∧
  overrideVars ["lines"; "t"] default_vars = None.
Proof.
  split; [|reflexivity].
  destruct (overrideVars ["call_tree"; "true"; "call_tree"; "yes"; "trim"] default_vars)
    as [v'|] eqn:Hrun; [|by vm_compute in Hrun].
  exists v'. split; [reflexivity|].
  pose proof (proj1 (proj2 (overrideVars_policy
    ["call_tree"; "true"; "call_tree"; "yes"; "trim"] default_vars)) v') as Hlookup.
  split.
  - exact (Hlookup "call_tree" Hrun).
  - exact (Hlookup "trim" Hrun).
Defined.

(** ** The node names of the graph page *)

(** X22. The names the [dot] handler passes to the page start with an empty
    name, and the name of the [k]-th node of the graph stands at index
    [k + 1], the number dot gives that node. *)
Theorem dot_nodes_numbered g :
  dot_nodes g = "" :: (graph.Info_Name <$> g) ∧
  length (dot_nodes g) = S (length g) ∧
  dot_nodes g !! 0%nat = Some "" ∧
  (∀ k, dot_nodes g !! S k = graph.Info_Name <$> g !! k).
Proof.
  assert (dot_nodes g = "" :: (graph.Info_Name <$> g)) as Hclosed.
  { unfold dot_nodes. induction g as [|n g IH] using rev_ind; [done|].
    by rewrite fold_left_app, fmap_app, IH. }
  split; [done|]. rewrite Hclosed. simpl. rewrite length_fmap.
  split; [done|]. split; [done|]. intros k. by rewrite list_lookup_fmap.
Qed.

(** X21. The options the handlers fix cannot be changed by the query.  With
    the overrides of [flamegraph], whatever the query made of them, the
    variable [call_tree] ends as [true] and [trim] as [false]; with those of
    [top], [nodecount] ends as [500]; with those of [peek], [lines] ends as
    [t].  Every other variable keeps the value of the query, and a handler
    whose variable is missing from the table does not get through. *)
Theorem handler_overrides_win {Other : Type} (v : gmap string (variable Other)) :
  (∀ c t, v !! "call_tree" = Some c → v !! "trim" = Some t →
     ∃ v', overrideVars ["call_tree"; "true"; "trim"; "false"] v = Some v' ∧
           v' !! "call_tree" = Some (set_value "true" c) ∧
           v' !! "trim" = Some (set_value "false" t) ∧
           ∀ name, name ≠ "call_tree" → name ≠ "trim" → v' !! name = v !! name) ∧
  (∀ n, v !! "nodecount" = Some n →
     ∃ v', overrideVars ["nodecount"; "500"] v = Some v' ∧
           v' !! "nodecount" = Some (set_value "500" n) ∧
           ∀ name, name ≠ "nodecount" → v' !! name = v !! name) ∧
  (∀ l, v !! "lines" = Some l →
     ∃ v', overrideVars ["lines"; "t"] v = Some v' ∧
           v' !! "lines" = Some (set_value "t" l) ∧
           ∀ name, name ≠ "lines" → v' !! name = v !! name) ∧
  (v !! "call_tree" = None ∨ v !! "trim" = None →
     overrideVars ["call_tree"; "true"; "trim"; "false"] v = None).
Proof.
  split; [|split; [|split]].
  - intros c t Hc Ht. simpl. rewrite Hc.
    rewrite lookup_insert_ne by done. rewrite Ht.
    eexists. split; [done|]. split; [|split].
    + rewrite lookup_insert_ne by done. by rewrite lookup_insert_eq.
    + by rewrite lookup_insert_eq.
    + intros name H1 H2. by rewrite !lookup_insert_ne.
  - intros n Hn. simpl. rewrite Hn. eexists. split; [done|]. split.
    + by rewrite lookup_insert_eq.
    + intros name H1. by rewrite lookup_insert_ne.
  - intros l Hl. simpl. rewrite Hl. eexists. split; [done|]. split.
    + by rewrite lookup_insert_eq.
    + intros name H1. by rewrite lookup_insert_ne.
  - intros [Hc|Ht]; simpl.
    + by rewrite Hc.
    + destruct (v !! "call_tree"); [|done].
      rewrite lookup_insert_ne by done. by rewrite Ht.
Qed.

Lemma handler_overrides_win_witness :
  default_vars !! "call_tree" = Some (mkVariable string "false" "bool") ∧
  default_vars !! "trim" = Some (mkVariable string "true" "bool") ∧
  (∃ v', overrideVars ["call_tree"; "true"; "trim"; "false"] default_vars = Some v' ∧
         v' !! "call_tree" = Some (mkVariable string "true" "bool") ∧
         v' !! "trim" = Some (mkVariable string "false" "bool") ∧
         ∀ name, name ≠ "call_tree" → name ≠ "trim" → v' !! name = default_vars !! name) ∧
  default_vars !! "lines" = None.
Proof.
  split; [reflexivity|]. split; [reflexivity|]. split; [|reflexivity].
  exact (proj1 (handler_overrides_win default_vars) _ _ eq_refl eq_refl).
Defined.


(** ** A request during a capture *)

(** C1, on the code.  The flag stands for "a capture is in progress" only as
    long as captures do not overlap.  When two requests have raced past the
    check, the one that finishes first clears the flag in its deferred
    function while the other is still sampling.  A third request that
    arrives then, during that capture, finds the flag cleared: it is not
    turned down, it samples beside the capture in progress, writes the cache
    and returns without error. *)
Theorem request_during_capture_admitted :
  ∃ s1 s2 s3,
    run (racy_schedule ++ [1; 1; 1; 1; 1])%nat
      (arrivals [("cpu", 5 * time.Second); ("heap", 5 * time.Second);
                 ("heap", 30 * time.Second)] h_fresh w_epoch) = Some s1 ∧
    go_pc <$> gos s1
    = [AtCapture;
       Returned ("1970-01-01T00:00:00-5Seconds-heap", Some (ProfileAt 1), None);
       AtLock] ∧
    inProfiling (handler s1) = false ∧
    run [2; 2; 2; 2]%nat s1 = Some s2 ∧
    go_pc <$> gos s2
    = [AtCapture;
       Returned ("1970-01-01T00:00:00-5Seconds-heap", Some (ProfileAt 1), None);
       AtCapture] ∧
    length (capturing s2) = 2%nat ∧
    run [2; 2; 2; 2; 2]%nat s2 = Some s3 ∧
    go_pc <$> gos s3
    = [AtCapture;
       Returned ("1970-01-01T00:00:00-5Seconds-heap", Some (ProfileAt 1), None);
       Returned ("1970-01-01T00:00:00-30Seconds-heap", Some (ProfileAt 1), None)] ∧
    profCache (handler s3) !! "1970-01-01T00:00:00-30Seconds-heap" = Some (ProfileAt 1) ∧
    inProfiling (handler s3) = false.
Proof.
  eexists _, _, _.
  split; [vm_compute; reflexivity|]. split; [reflexivity|]. split; [reflexivity|].
  split; [vm_compute; reflexivity|]. split; [reflexivity|]. split; [reflexivity|].
  split; [vm_compute; reflexivity|]. split; [reflexivity|]. split; reflexivity.
Qed.
